(** * Verification of the sinabs tutorial notebooks and CI workflow

    The development embeds the executable code of the three tutorial
    notebooks ([weight_transfer_mnist], [LeNet_5_EngChinese], the synops
    tutorial) and of the CI workflow, and proves the properties stated
    about them.

    Conventions of the embedding:
    - a tensor is its sizes together with its contiguous row-major storage;
    - a Python exception is [None] in the [option] monad, or a named
      exception in the [result] type where the kind of exception matters;
    - a floating-point number is the rational it denotes where the code
      only compares, divides by a positive constant and counts; the
      synops loss, which squares and divides, is computed on float32
      values with their overflow to infinity and underflow to 0;
    - library routines (torch, numpy) are modelled from their documented
      behaviour, including the inputs on which they raise. *)

From Stdlib Require Import ZArith QArith Qround Lia Lqa.
From stdpp Require Import base option list strings gmap pretty.

Local Open Scope nat_scope.

(** Comparison of rationals is decidable. *)
#[global] Instance Q_eq_dec : EqDecision Q.
Proof. solve_decision. Defined.

#[global] Instance Qlt_decision : RelDecision Qlt :=
  λ x y, match Qlt_le_dec x y with
         | left H => left H
         | right H => right (Qle_not_lt _ _ H)
         end.

#[global] Instance Qle_decision : RelDecision Qle :=
  λ x y, match Qlt_le_dec y x with
         | left H => right (Qlt_not_le _ _ H)
         | right H => left H
         end.

(** ** Tensors: sizes and row-major storage *)

Module Tensor.

Record tensor (A : Type) : Type := Tensor { shape : list nat; storage : list A }.
Arguments Tensor {A} shape storage.
Arguments shape {A} t.
Arguments storage {A} t.

(** Number of elements of a tensor of sizes [s]. *)
Definition numel (s : list nat) : nat := foldr Nat.mul 1 s.

(** A multi-index [ix] addresses an element of a tensor of sizes [s]. *)
Definition in_range (s ix : list nat) : Prop := Forall2 lt ix s.

#[global] Instance in_range_dec s ix : Decision (in_range s ix).
Proof. unfold in_range. apply _. Defined.

(** Position of the element [ix] in the storage. *)
Fixpoint offset (s ix : list nat) : nat :=
  match s, ix with
  | n :: s', i :: ix' => i * numel s' + offset s' ix'
  | _, _ => 0
  end.

(** All multi-indices of a tensor of sizes [s], in storage order. *)
Fixpoint indices (s : list nat) : list (list nat) :=
  match s with
  | [] => [[]]
  | n :: s' => mjoin ((λ i, cons i <$> indices s') <$> seq 0 n)
  end.

Definition wf {A} (t : tensor A) : Prop := length (storage t) = numel (shape t).

(** [t[ix]]; [None] when [ix] is not an index of [t]. *)
Definition get {A} (t : tensor A) (ix : list nat) : option A :=
  if decide (in_range (shape t) ix) then storage t !! offset (shape t) ix else None.

(** The tensor of sizes [s] whose element at [ix] is [f ix]; fails when
    computing one of its elements fails. *)
Definition tabulate {A} (s : list nat) (f : list nat → option A) : option (tensor A) :=
  Tensor s <$> mapM f (indices s).

Definition dim {A} (t : tensor A) : nat := length (shape t).

(** Python and torch accept a negative position [d] counted from the end;
    anything outside [-n, n) raises IndexError. *)
Definition wrap_index (n : nat) (d : Z) : option nat :=
  if decide (0 ≤ d < Z.of_nat n)%Z then Some (Z.to_nat d)
  else if decide (- Z.of_nat n ≤ d < 0)%Z then Some (Z.to_nat (d + Z.of_nat n))
  else None.

(** [t.size(d)] *)
Definition size {A} (t : tensor A) (d : Z) : option nat :=
  k ← wrap_index (dim t) d; shape t !! k.

(** *** The torch operations used by the tutorials *)

(** [a.repeat] applied to [reps]: [reps] has at least [a.dim()] entries
    (RuntimeError otherwise); missing leading sizes of [a] count as 1; the
    result repeats [a] [reps[p]] times along every dimension [p]. *)
Definition repeat {A} (a : tensor A) (reps : list nat) : option (tensor A) :=
  if decide (length reps < dim a) then None
  else
    let k := length reps - dim a in
    let s := replicate k 1 ++ shape a in
    tabulate (zip_with Nat.mul s reps)
             (λ ix, get a (drop k (zip_with Nat.modulo ix s))).

(** [torch.index_select(a, d, index)]: [index] is a 1-D tensor of
    positions along [d], each at least 0 and below [a.size(d)] (IndexError
    otherwise). *)
Definition index_select {A} (a : tensor A) (d : Z) (index : list nat)
  : option (tensor A) :=
  k ← wrap_index (dim a) d;
  m ← shape a !! k;
  if decide (Forall (λ j, j < m) index) then
    tabulate (<[k:=length index]> (shape a))
             (λ ix, i ← ix !! k; j ← index !! i; get a (<[k:=j]> ix))
  else None.

(** [t[index]] for an integer [index]: the slice at [index] along the
    first dimension (IndexError on a 0-dim tensor or outside the range). *)
Definition getitem {A} (t : tensor A) (index : Z) : option (tensor A) :=
  match shape t with
  | [] => None
  | n :: s => k ← wrap_index n index; tabulate s (λ ix, get t (k :: ix))
  end.

(** [len(t)]: the first size (TypeError on a 0-dim tensor). *)
Definition len {A} (t : tensor A) : option nat := head (shape t).

(** [t.unsqueeze(d)]: a size 1 is inserted at position [d]. *)
Definition unsqueeze {A} (t : tensor A) (d : Z) : option (tensor A) :=
  k ← wrap_index (S (dim t)) d;
  tabulate (take k (shape t) ++ 1 :: drop k (shape t)) (λ ix, get t (delete k ix)).

(** Element-wise application of [f]. *)
Definition map {A B} (f : A → B) (t : tensor A) : tensor B :=
  Tensor (shape t) (f <$> storage t).

(** True division of a uint8 tensor by a positive integer constant; the
    result is a floating-point tensor. *)
Definition true_divide (t : tensor Byte.byte) (c : positive) : tensor Q :=
  map (λ b, Z.of_N (Byte.to_N b) # c) t.

(** [t.float()] on a boolean tensor. *)
Definition float (t : tensor bool) : tensor Q :=
  map (λ b : bool, if b then 1%Q else 0%Q) t.

(** The state of the random number generator: the stream of numbers it
    draws and how many it has handed out. *)
Record generator : Type := Generator { samples : nat → Q; position : nat }.

(** [torch.rand] applied to [sizes]: a tensor of fresh draws; the
    generator advances. *)
Definition rand (g : generator) (sizes : list nat) : tensor Q * generator :=
  let n := numel sizes in
  (Tensor sizes (samples g <$> seq (position g) n),
   Generator (samples g) (position g + n)).

(** Broadcasting: sizes are aligned at the last dimension; two sizes are
    compatible when they are equal or one of them is 1 (RuntimeError
    otherwise). [broadcast_rev] works on the reversed lists of sizes. *)
Fixpoint broadcast_rev (r1 r2 : list nat) : option (list nat) :=
  match r1, r2 with
  | [], r | r, [] => Some r
  | x :: r1', y :: r2' =>
      z ← (if decide (x = y) then Some x
           else if decide (x = 1) then Some y
           else if decide (y = 1) then Some x else None);
      cons z <$> broadcast_rev r1' r2'
  end.

Definition broadcast_shapes (s1 s2 : list nat) : option (list nat) :=
  reverse <$> broadcast_rev (reverse s1) (reverse s2).

(** The index of the operand of sizes [s] that is read for the index [ix]
    of the broadcast result. *)
Definition broadcast_index (s ix : list nat) : list nat :=
  zip_with (λ n i, if decide (n = 1) then 0 else i) s (drop (length ix - length s) ix).

Definition broadcast_map2 {A B C} (f : A → B → C) (a : tensor A) (b : tensor B)
  : option (tensor C) :=
  s ← broadcast_shapes (shape a) (shape b);
  tabulate s (λ ix, x ← get a (broadcast_index (shape a) ix);
                    y ← get b (broadcast_index (shape b) ix);
                    Some (f x y)).

(** [a < b] *)
Definition lt (a b : tensor Q) : option (tensor bool) :=
  broadcast_map2 (λ x y, bool_decide (x < y)%Q) a b.

(** [a == b] for tensors of integers *)
Definition eq (a b : tensor Z) : option (tensor bool) :=
  broadcast_map2 (λ x y, bool_decide (x = y)) a b.

(** [t.sum()] of a boolean tensor: the number of [True] entries. *)
Definition sum_bool (t : tensor bool) : nat :=
  length (filter (λ b : bool, b = true) (storage t)).

(** The largest entry of a non-empty sequence and the first position at
    which it occurs. *)
Fixpoint max_from (best : Q) (best_i i : nat) (row : list Q) : Q * nat :=
  match row with
  | [] => (best, best_i)
  | x :: row' =>
      if decide (best < x)%Q then max_from x i (S i) row'
      else max_from best best_i (S i) row'
  end.

Definition max_row (row : list Q) : option (Q * nat) :=
  match row with
  | [] => None
  | x :: row' => Some (max_from x 0 1 row')
  end.

(** The entries of [t] along dimension [k] at the position [ix] of the
    other dimensions. *)
Definition lane {A} (t : tensor A) (k : nat) (ix : list nat) : option (list A) :=
  m ← shape t !! k;
  mapM (λ j, get t (take k ix ++ j :: drop k ix)) (seq 0 m).

(** [torch.max(t, d)]: values and indices of the maximum along [d]; for
    equal maxima the first index; an error when the size along [d] is 0. *)
Definition max_dim (t : tensor Q) (d : Z) : option (tensor Q * tensor Z) :=
  k ← wrap_index (dim t) d;
  m ← shape t !! k;
  if decide (m = 0) then None
  else
    values ← tabulate (delete k (shape t)) (λ ix, row ← lane t k ix; fst <$> max_row row);
    indices ← tabulate (delete k (shape t))
                (λ ix, row ← lane t k ix; (Z.of_nat ∘ snd) <$> max_row row);
    Some (values, indices).

(** [t.sum(d, keepdim=True)] *)
Definition sum_dim_keepdim (t : tensor Q) (d : Z) : option (tensor Q) :=
  k ← wrap_index (dim t) d;
  tabulate (<[k:=1]> (shape t))
           (λ ix, row ← lane t k (delete k ix); Some (foldr Qplus 0%Q row)).

End Tensor.

(** ** The numpy routines used by [tensor_tile] *)

Module Numpy.

(** [np.arange(n)] *)
Definition arange (n : nat) : list nat := seq 0 n.

(** [np.concatenate(arrays)] of 1-D arrays; ValueError ("need at least one
    array to concatenate") on an empty sequence. *)
Definition concatenate (arrays : list (list nat)) : option (list nat) :=
  match arrays with
  | [] => None
  | _ => Some (mjoin arrays)
  end.

End Numpy.

(** [l[d] = x] on a Python list: negative positions count from the end,
    IndexError outside. *)
Definition list_setitem {A} (l : list A) (d : Z) (x : A) : option (list A) :=
  k ← Tensor.wrap_index (length l) d; Some (<[k:=x]> l).

(** ** Tutorial "Converting an ANN to an SNN" (weight_transfer_mnist) *)

Module WeightTransfer.
Import Tensor.

(** The dataset class: the images are a uint8 tensor of sizes
    [N; 28; 28], the labels an integer vector of length [N]. *)
Record MNIST : Type := mkMNIST {
  data : tensor Byte.byte;
  targets : list Z;
  is_spiking : bool;
  time_window : nat
}.

(** [MNIST.__getitem__]; the draws of [torch.rand] come from the generator
    and the advanced generator is returned with the sample. *)
Definition __getitem__ (self : MNIST) (index : Z) (g : generator)
  : option (tensor Q * Z * generator) :=
  x ← getitem (data self) index;
  x ← unsqueeze x 0;
  let img := true_divide x 255 in
  k ← wrap_index (length (targets self)) index;
  target ← targets self !! k;
  if is_spiking self then
    let '(r, g) := rand g (time_window self :: shape img) in
    b ← lt r img;
    Some (float b, target, g)
  else Some (img, target, g).

(** The gray level of a pixel as a fraction of full intensity. *)
Definition gray (px : Byte.byte) : Q := Z.of_N (Byte.to_N px) # 255.

(** The outcome of one time step at one pixel: an event when the draw [u]
    is below the gray level. *)
Definition spike (u : Q) (px : Byte.byte) : Q :=
  if bool_decide (u < gray px)%Q then 1%Q else 0%Q.

(** A dataset of [N] images of 28 by 28 pixels with their [N] labels. *)
Definition wf_dataset (self : MNIST) (N : nat) : Prop :=
  shape (data self) = [N; 28; 28] ∧ wf (data self) ∧ length (targets self) = N.

End WeightTransfer.

(** ** Tutorial "Take LeNet as an example" (LeNet_5_EngChinese) *)

Module LeNet.
Import Tensor.

(** [tensor_tile(a, dim, n_tile)] *)
Definition tensor_tile {A} (a : tensor A) (dim : Z) (n_tile : nat)
  : option (tensor A) :=
  init_dim ← size a dim;
  let repeat_idx := replicate (Tensor.dim a) 1 in
  repeat_idx ← list_setitem repeat_idx dim n_tile;
  a ← repeat a repeat_idx;
  order_index ←
    Numpy.concatenate
      ((λ i, (λ x, init_dim * x + i) <$> Numpy.arange n_tile) <$> seq 0 init_dim);
  index_select a dim order_index.

(** [count_correct(output, target)]; the count is returned as a
    floating-point number. *)
Definition count_correct (output : tensor Q) (target : tensor Z) : option Q :=
  '(_, predicted) ← max_dim output 1;
  acc ← eq predicted target;
  Some (inject_Z (Z.of_nat (sum_bool acc))).

(** [k] is the smallest position at which [row] attains its maximum. *)
Definition first_max (row : list Q) (k : nat) : Prop :=
  match row !! k with
  | Some x => Forall (λ y, (y <= x)%Q) row ∧ Forall (λ y, (y < x)%Q) (take k row)
  | None => False
  end.

#[global] Instance first_max_dec row k : Decision (first_max row k).
Proof. unfold first_max. destruct (row !! k); apply _. Defined.

(** Row [i] of the matrix [output] has its first maximum at the column
    [target[i]]. *)
Definition predicted_correctly (output : tensor Q) (target : tensor Z) (i : nat)
  : Prop :=
  match lane output 1 [i], get target [i] with
  | Some row, Some t => (0 ≤ t)%Z ∧ first_max row (Z.to_nat t)
  | _, _ => False
  end.

#[global] Instance predicted_correctly_dec output target i :
  Decision (predicted_correctly output target i).
Proof.
  unfold predicted_correctly.
  destruct (lane output 1 [i]), (get target [i]); apply _.
Defined.

(** [n_correct / n_test * 100.0]; [None] when [n_test] is 0 (the division
    raises or yields a non-finite number). *)
Definition percentage (n_correct : Q) (n_test : nat) : option Q :=
  if decide (n_test = 0) then None
  else Some (n_correct / inject_Z (Z.of_nat n_test) * 100)%Q.

(** A batch of a data loader: images and labels. *)
Definition batch : Type := tensor Q * tensor Z.

(** The globals set by [prepare()] that the functions read. *)
Definition input_image_size : list nat := [1; 28; 28].

Section evaluation.
(** The networks belong to torch and sinabs: the forward pass of the ANN,
    the conversion [from_model] (model, input size, spike threshold, bias
    rescaling, minimal membrane potential), and the state reset and the
    forward pass of the spiking network, which carries its state. *)
Context {Model Net : Type}.
Context (forward : Model → tensor Q → option (tensor Q)).
Context (from_model : Model → list nat → Q → Q → Q → Net).
Context (reset_states : Net → Net).
Context (spiking_model : Net → tensor Q → option (tensor Q * Net)).

Fixpoint test_loop (model : Model) (test_dataloader : list batch)
    (n_correct : Q) (n_test : nat) : option (Q * nat) :=
  match test_dataloader with
  | [] => Some (n_correct, n_test)
  | (imgs, labels) :: rest =>
      outputs ← forward model imgs;
      c ← count_correct outputs labels;
      n ← len labels;
      test_loop model rest (n_correct + c)%Q (n_test + n)
  end.

(** [test(model)] *)
Definition test (model : Model) (test_dataloader : list batch) : option Q :=
  '(n_correct, n_test) ← test_loop model test_dataloader 0%Q 0;
  percentage n_correct n_test.

(** The loop of [snn_test] from iteration [i] on; it breaks when
    [i > n_test]. *)
Fixpoint snn_loop (net : Net) (n_dt n_test i : nat)
    (spiking_test_dataloader : list batch) (n_correct : Q) : option Q :=
  match spiking_test_dataloader with
  | [] => Some n_correct
  | (imgs, labels) :: rest =>
      if decide (n_test < i) then Some n_correct
      else
        input_frames ← tensor_tile imgs 0 n_dt;
        let net := reset_states net in
        '(outputs, net) ← spiking_model net input_frames;
        total ← sum_dim_keepdim outputs 0;
        c ← count_correct total labels;
        snn_loop net n_dt n_test (S i) rest (n_correct + c)%Q
  end.

(** [snn_test(model, n_dt, n_test)]; moving the network to the device and
    switching it to inference mode do not change what it computes. *)
Definition snn_test (model : Model) (n_dt n_test : nat)
    (spiking_test_dataloader : list batch) : option Q :=
  let net := from_model model input_image_size 1%Q 1%Q (-1)%Q in
  n_correct ← snn_loop net n_dt n_test 0 spiking_test_dataloader 0%Q;
  percentage n_correct n_test.

End evaluation.

(** *** A network that is always right

    Images of sizes [(1, 1, 28, 28)] whose first pixel holds the class;
    the spiking network emits, at every time step, one spike of the output
    neuron of that class. It has no state. *)

Definition image_of_class (k : nat) : tensor Q :=
  Tensor [1; 1; 28; 28] (inject_Z (Z.of_nat k) :: replicate 783 0%Q).

Definition sample_of_class (k : nat) : batch :=
  (image_of_class k, Tensor [1] [Z.of_nat k]).

Definition oracle_network (net : unit) (frames : tensor Q) : option (tensor Q * unit) :=
  n_dt ← len frames;
  outputs ← tabulate [n_dt; 10]
    (λ ix, t ← ix !! 0; j ← ix !! 1; p ← get frames [t; 0; 0; 0];
           Some (if decide (Qfloor p = Z.of_nat j) then 1%Q else 0%Q));
  Some (outputs, net).

Definition oracle_snn_test (n_dt n_test : nat) (loader : list batch) : option Q :=
  snn_test (Model:=unit) (λ _ _ _ _ _, tt) (λ net, net) oracle_network tt
           n_dt n_test loader.

(** The number of samples of a data loader. *)
Definition total_len (loader : list batch) : option nat :=
  foldr (λ '(_, labels) acc, n ← len labels; m ← acc; Some (n + m)) (Some 0) loader.

(** [r] is [a] with every slice along [d] repeated [n] times in place:
    the size along [d] is multiplied by [n], the other sizes are unchanged,
    and the slice [i * n + j] of [r] is the slice [i] of [a]. *)
Definition tiled {A} (a : tensor A) (d : Z) (n : nat) (r : tensor A) : Prop :=
  ∃ k m, wrap_index (Tensor.dim a) d = Some k ∧ shape a !! k = Some m ∧
    shape r = <[k:=m * n]> (shape a) ∧ size r d = Some (m * n) ∧ wf r ∧
    ∀ i j ix, i < m → j < n →
      in_range (shape r) ix → ix !! k = Some (i * n + j) →
      is_Some (get r ix) ∧ get r ix = get a (<[k:=i]> ix).

(** The index vector built by [tensor_tile]. *)
Definition order_index (m n : nat) : list nat :=
  mjoin ((λ i, (λ x, m * x + i) <$> Numpy.arange n) <$> seq 0 m).

End LeNet.

(** ** Tutorial "Minimise the number of synaptic operations" *)

Module Synops.

(** Python exceptions that attribute access can raise. *)
Inductive exn : Type :=
| AttributeError (attr : string)
| RecursionError.

Inductive result (A : Type) : Type :=
| Ok (x : A)
| Raise (e : exn).
Arguments Ok {A} x.
Arguments Raise {A} e.

Definition bind {A B} (r : result A) (k : A → result B) : result B :=
  match r with
  | Ok x => k x
  | Raise e => Raise e
  end.

Notation "x <- r ;; k" := (bind r (λ x, k))
  (at level 100, r at next level, right associativity).

(** The layers the tutorial builds; the spiking layers carry their
    membrane potential. *)
Inductive layer : Type :=
| FlattenTime
| Conv2d (in_channels out_channels kernel_size : nat) (bias : bool)
| IAFSqueeze (batch_size : Z) (v_mem : list Q)
| AvgPool2d (kernel_size : nat)
| Flatten
| Linear (in_features out_features : nat) (bias : bool)
| UnflattenTime (batch_size : Z).

(** [isinstance(layer, sl.StatefulLayer)] *)
Definition is_stateful (l : layer) : bool :=
  match l with
  | IAFSqueeze _ _ => true
  | _ => false
  end.

(** [layer.reset_states()]: the membrane potential is set to zero. *)
Definition reset_layer (l : layer) : layer :=
  match l with
  | IAFSqueeze b v => IAFSqueeze b ((λ _, 0%Q) <$> v)
  | _ => l
  end.

(** Values an attribute can hold. *)
Inductive value : Type :=
| VBool (b : bool)
| VLayer (l : layer)
| VLayers (ls : list layer)
| VMethod (name : string).

(** An [nn.Module] object: its instance dictionary and the three
    registries that [nn.Module.__getattr__] searches; [_modules] is an
    ordered dictionary. *)
Record module : Type := Module_ {
  dict : gmap string value;
  _parameters : gmap string value;
  _buffers : gmap string value;
  _modules : list (string * layer)
}.

(** [d[name] = m] on an ordered dictionary: an existing key keeps its
    place, a new key goes to the end. *)
Fixpoint odict_set (d : list (string * layer)) (name : string) (m : layer)
  : list (string * layer) :=
  match d with
  | [] => [(name, m)]
  | (k, v) :: d' =>
      if decide (k = name) then (k, m) :: d' else (k, v) :: odict_set d' name m
  end.

Fixpoint odict_get (d : list (string * layer)) (name : string) : option layer :=
  match d with
  | [] => None
  | (k, v) :: d' => if decide (k = name) then Some v else odict_get d' name
  end.

(** [nn.Module.__init__]: empty registries, training mode. *)
Definition Module___init__ : module :=
  Module_ {[ "training" := VBool true ]} ∅ ∅ [].

(** [self.add_module(name, m)] *)
Definition add_module (self : module) (name : string) (m : layer) : module :=
  Module_ (dict self) (_parameters self) (_buffers self)
          (odict_set (_modules self) name m).

(** [nn.Sequential.__init__]: the layers are registered under their
    positions written in decimal. *)
Definition Sequential___init__ (args : list layer) : module :=
  foldl (λ self '(idx, m), add_module self (pretty idx) m)
        Module___init__ (imap (λ idx m, (idx, m)) args).

(** [SNN.__init__] *)
Definition SNN___init__ (batch_size : Z) : module :=
  Sequential___init__
    [ FlattenTime;
      Conv2d 1 16 5 false;
      IAFSqueeze batch_size [];
      AvgPool2d 2;
      Conv2d 16 32 5 false;
      IAFSqueeze batch_size [];
      AvgPool2d 2;
      Conv2d 32 120 4 false;
      IAFSqueeze batch_size [];
      Flatten;
      Linear 120 10 false;
      IAFSqueeze batch_size [];
      UnflattenTime batch_size ].

(** [nn.Module.__getattr__], the fallback of attribute access. *)
Definition Module___getattr__ (self : module) (name : string) : result value :=
  match _parameters self !! name with
  | Some v => Ok v
  | None =>
      match _buffers self !! name with
      | Some v => Ok v
      | None =>
          match odict_get (_modules self) name with
          | Some l => Ok (VLayer l)
          | None => Raise (AttributeError name)
          end
      end
  end.

(** [v.children()]: the layers of the tutorial have no sub-modules; other
    values have no such method. *)
Definition children (v : value) : result (list layer) :=
  match v with
  | VLayer _ => Ok []
  | _ => Raise (AttributeError "children")
  end.

(** What the class [SNN] and its bases define under a name. *)
Inductive class_attr : Type :=
| Property
| Method.

Definition SNN_class (name : string) : option class_attr :=
  if decide (name = "spiking_layers") then Some Property
  else if decide (name ∈ ["reset_states"; "children"; "modules"; "forward";
                           "add_module"; "parameters"; "eval"; "train"; "to"])
       then Some Method
  else None.

(** The body of the property [SNN.spiking_layers]; [getattr] is the
    attribute access on [self]. *)
Definition spiking_layers_body (getattr : module → string → result value)
    (self : module) : result value :=
  net <- getattr self "net";;
  layers <- children net;;
  Ok (VLayers (filter (λ l, is_stateful l = true) layers)).

(** Attribute access [self.name] on an instance of [SNN]: a property of
    the class is evaluated, and when it raises AttributeError the fallback
    [__getattr__] is asked for the same name; then come the instance
    dictionary, the methods of the class, and the fallback. [depth] is
    the number of nested calls the interpreter still allows. *)
Fixpoint getattr (depth : nat) (self : module) (name : string) : result value :=
  match depth with
  | 0 => Raise RecursionError
  | S depth' =>
      match SNN_class name with
      | Some Property =>
          match spiking_layers_body (getattr depth') self with
          | Raise (AttributeError _) => Module___getattr__ self name
          | r => r
          end
      | Some Method =>
          match dict self !! name with
          | Some v => Ok v
          | None => Ok (VMethod name)
          end
      | None =>
          match dict self !! name with
          | Some v => Ok v
          | None => Module___getattr__ self name
          end
      end
  end.

(** The property [SNN.spiking_layers] read on [self]. *)
Definition spiking_layers (depth : nat) (self : module) : result (list layer) :=
  v <- getattr depth self "spiking_layers";;
  match v with
  | VLayers ls => Ok ls
  | _ => Raise (AttributeError "__iter__")
  end.

(** [SNN.reset_states]; the layers are returned in their state after the
    reset. *)
Definition reset_states (depth : nat) (self : module) : result (list layer) :=
  layers <- spiking_layers depth self;;
  Ok (reset_layer <$> layers).

(** An object on which nothing is stored under the name [net]. *)
Definition has_no_net (self : module) : Prop :=
  dict self !! "net" = None ∧ _parameters self !! "net" = None ∧
  _buffers self !! "net" = None ∧ odict_get (_modules self) "net" = None.

End Synops.

(** ** The CI workflow *)

Module CI.

(** A piece of a templated string: literal text or the expression
    $[{{ matrix.key }}]. *)
Inductive piece : Type :=
| Lit (text : string)
| Matrix (key : string).

#[global] Instance piece_eq_dec : EqDecision piece.
Proof. solve_decision. Defined.

Definition template : Type := list piece.

(** A step: its name (for a step without a name, the action it uses),
    the action, the inputs given to the action, the commands and the
    environment. *)
Record step : Type := Step {
  step_name : template;
  uses : option string;
  inputs : list (string * template);
  run : list template;
  env : list (string * string)
}.

(** A job; [fail_fast] is on unless the strategy turns it off. *)
Record job : Type := Job {
  job_id : string;
  needs : list string;
  runs_on : template;
  fail_fast : bool;
  matrix : list (string * list string);
  steps : list step
}.

Definition multitest : job :=
  Job "multitest" [] [Matrix "os"] false
    [ ("os", ["ubuntu-latest"; "windows-latest"]);
      ("python-version", ["3.7"; "3.9"]);
      ("torch-version", ["1.8.0"; "1.12.0"]) ]
    [ Step [Lit "actions/checkout@v2"] (Some "actions/checkout@v2") [] [] [];
      Step [Lit "Set up Python "; Matrix "python-version"]
           (Some "actions/setup-python@v2")
           [("python-version", [Matrix "python-version"])] [] [];
      Step [Lit "Install requirements"] None []
           [ [Lit "pip install torch~="; Matrix "torch-version"; Lit " torchvision"];
             [Lit "pip install ."];
             [Lit "pip install -r tests/requirements.txt"] ] [];
      Step [Lit "Test with pytest"] None [] [ [Lit "pytest tests"] ]
           [("CI", "true")] ].

Definition documentation : job :=
  Job "documentation" ["multitest"] [Lit "ubuntu-latest"] true []
    [ Step [Lit "actions/checkout@v3"] (Some "actions/checkout@v3")
           [("fetch-depth", [Lit "0"])] [] [];
      Step [Lit "Setup Python 3.8"] (Some "actions/setup-python@v2")
           [("python-version", [Lit "3.8"])] [] [];
      Step [Lit "Install dependencies"] None []
           [ [Lit "pip install ."]; [Lit "pip install -r docs/requirements.txt"] ] [];
      Step [Lit "Build documentation"] None []
           [ [Lit "cd docs && make clean && make html"] ] [] ].

Definition build_and_publish : job :=
  Job "build-and-publish" ["documentation"] [Lit "ubuntu-latest"] true []
    [ Step [Lit "actions/checkout@v3"] (Some "actions/checkout@v3")
           [("fetch-depth", [Lit "0"])] [] [];
      Step [Lit "Set up Python 3.8"] (Some "actions/setup-python@v2")
           [("python-version", [Lit "3.8"])] [] [];
      Step [Lit "Install build packages"] None []
           [ [Lit "pip install wheel pbr setuptools"] ] [];
      Step [Lit "Build a binary wheel and a source tarball"] None []
           [ [Lit "python setup.py sdist bdist_wheel"] ] [];
      Step [Lit "Publish distribution package to PyPI"]
           (Some "pypa/gh-action-pypi-publish@master")
           [ ("password", [Lit "${{ secrets.PYPI_DEPLOYMENT }}"]);
             ("skip_existing", [Lit "true"]) ] [] [] ].

(** The jobs in the order of the file. *)
Definition workflow : list job := [multitest; documentation; build_and_publish].

(** One combination of the matrix: a value for every key. *)
Definition entry : Type := list (string * string).

(** The combinations of a matrix; a job without a matrix has the single
    empty combination. *)
Fixpoint expand (m : list (string * list string)) : list entry :=
  match m with
  | [] => [[]]
  | (key, values) :: m' =>
      v ← values; e ← expand m'; [(key, v) :: e]
  end.

Fixpoint entry_get (e : entry) (key : string) : string :=
  match e with
  | [] => ""
  | (k, v) :: e' => if decide (k = key) then v else entry_get e' key
  end.

Definition piece_text (e : entry) (p : piece) : string :=
  match p with
  | Lit text => text
  | Matrix key => entry_get e key
  end.

Fixpoint render (e : entry) (t : template) : string :=
  match t with
  | [] => ""
  | [p] => piece_text e p
  | p :: t' => piece_text e p +:+ render e t'
  end.

Inductive status : Type := Success | Failure | Skipped.

#[global] Instance status_eq_dec : EqDecision status.
Proof. solve_decision. Defined.

(** The run of one combination of a job: the names of the steps that were
    started, in order, and whether all steps succeeded. *)
Record instance_run : Type := InstanceRun {
  run_entry : entry;
  runner : string;
  started : list string;
  passed : bool
}.

(** The steps run in order; the first failing step ends the job, the
    steps after it are not started. [ok s] tells whether [s] succeeds. *)
Fixpoint run_steps (ok : step → bool) (e : entry) (ss : list step)
  : list string * bool :=
  match ss with
  | [] => ([], true)
  | s :: ss' =>
      if ok s then
        let '(names, r) := run_steps ok e ss' in (render e (step_name s) :: names, r)
      else ([render e (step_name s)], false)
  end.

(** The run of a job: with [fail-fast] off every combination runs to its
    end; the job succeeds when all combinations do. [ok] tells, for a
    job, a combination and a step, whether the step succeeds. *)
Definition run_job (ok : string → entry → step → bool) (j : job) : list instance_run :=
  (λ e, let '(names, r) := run_steps (ok (job_id j) e) e (steps j) in
        InstanceRun e (render e (runs_on j)) names r) <$> expand (matrix j).

Definition job_status (runs : list instance_run) : status :=
  if forallb passed runs then Success else Failure.

Record job_run : Type := JobRun {
  ran_job : string;
  outcome : status;
  instances : list instance_run
}.

(** The jobs are taken in the order of the file; a job starts when every
    job it needs has succeeded, and is skipped otherwise. *)
Fixpoint run_jobs (ok : string → entry → step → bool)
    (done : gmap string status) (js : list job) : list job_run :=
  match js with
  | [] => []
  | j :: js' =>
      if decide (Forall (λ n, done !! n = Some Success) (needs j)) then
        let runs := run_job ok j in
        let st := job_status runs in
        JobRun (job_id j) st runs :: run_jobs ok (<[job_id j := st]> done) js'
      else
        JobRun (job_id j) Skipped [] :: run_jobs ok (<[job_id j := Skipped]> done) js'
  end.

Definition run_workflow (ok : string → entry → step → bool) : list job_run :=
  run_jobs ok ∅ workflow.




End CI.

(** ** The tutorials as scripts: what they do, in order *)

Module Notebook.

(** The network objects a tutorial handles: a network built by the script
    from torch layers, the object returned by the [h]-th call of
    [from_model], and a spiking network built by the script itself. *)
Inductive obj : Type :=
| Ann (name : string)
| Converted (h : nat)
| HandBuilt (name : string).

#[global] Instance obj_eq_dec : EqDecision obj.
Proof. solve_decision. Defined.

(** The observable operations. One training iteration (forward pass, loss,
    backward pass, optimizer step) is one event. *)
Inductive event : Type :=
| EvDefine (o : obj)
| EvTrainStep (o : obj)
| EvForward (o : obj)
| EvFromModel (src : obj) (h : nat)
| EvEvalMode (o : obj)
| EvResetStates (o : obj)
| EvPrint
| EvPlot.

#[global] Instance event_eq_dec : EqDecision event.
Proof. solve_decision. Defined.

(** The interpreter state: the global variables, the number of calls of
    [from_model] so far, and the operations performed so far. *)
Record state : Type := State {
  env : gmap string obj;
  next_handle : nat;
  trace : list event
}.

(** A piece of script; [None] is an uncaught exception. *)
Definition script (A : Type) : Type := state → option (A * state).

Definition ret {A} (x : A) : script A := λ st, Some (x, st).

Definition bind {A B} (s : script A) (k : A → script B) : script B :=
  λ st, match s st with
        | Some (x, st') => k x st'
        | None => None
        end.

Notation "x <- s ;; k" := (bind s (λ x, k))
  (at level 100, s at next level, right associativity).
Notation "s ;;; k" := (bind s (λ _, k))
  (at level 100, right associativity).

Definition emit (e : event) : script unit :=
  λ st, Some (tt, State (env st) (next_handle st) (trace st ++ [e])).

(** [x = o] at top level *)
Definition assign (x : string) (o : obj) : script unit :=
  λ st, Some (tt, State (<[x:=o]> (env st)) (next_handle st) (trace st)).

(** Reading the global [x]; NameError when it is not bound. *)
Definition var (x : string) : script obj :=
  λ st, match env st !! x with
        | Some o => Some (o, st)
        | None => None
        end.

(** An exception unless [b] holds. *)
Definition raise_unless (b : bool) : script unit :=
  λ st, if b then Some (tt, st) else None.

(** [from_model(src, ...)]: every call returns a new object. *)
Definition from_model (src : obj) : script obj :=
  λ st, Some (Converted (next_handle st),
              State (env st) (S (next_handle st))
                    (trace st ++ [EvFromModel src (next_handle st)])).

(** [for _ in range(n): body] *)
Fixpoint for_ (n : nat) (body : script unit) : script unit :=
  match n with
  | 0 => ret tt
  | S n' => body ;;; for_ n' body
  end.

(** *** weight_transfer_mnist; [n_train] is the number of batches of
    [train_loader] and [n_samples] the number of images of the MNIST test
    set, which [test_loader], [spike_test_loader] and [spike_mnist_test]
    all read. *)
Module WT.

Definition n_epochs : nat := 2.
Definition batch_size : nat := 128.
Definition test_batch_size : nat := 10.

(** The sizes of the batches that a [DataLoader] makes of [n] samples:
    full batches and, when [n] is not a multiple of the batch size, a
    last shorter one. *)
Definition batch_sizes (n size : nat) : list nat :=
  replicate (n / size) size ++ (if decide (n mod size = 0) then [] else [n mod size]).

(** cell 1: [ann = nn.Sequential(...)] *)
Definition define_ann : script unit :=
  emit (EvDefine (Ann "ann")) ;;; assign "ann" (Ann "ann").

(** cell 4: the training loop *)
Definition train (n_train : nat) : script unit :=
  for_ n_epochs (for_ n_train (ann <- var "ann" ;; emit (EvTrainStep ann))).

(** cell 5: accuracy of the ANN over the [n_test] batches of
    [test_loader]; [torch.cat] of no batch raises. *)
Definition evaluate_ann (n_test : nat) : script unit :=
  for_ n_test (ann <- var "ann" ;; emit (EvForward ann)) ;;;
  raise_unless (bool_decide (0 < n_test)) ;;;
  emit EvPrint.

(** cell 6: [sinabs_model = from_model(ann, ...)] *)
Definition convert : script unit :=
  ann <- var "ann" ;;
  m <- from_model ann ;;
  assign "sinabs_model" m.

(** cell 9: the loop over the batches of [spike_test_loader], given by
    their sizes; [len] is the number of batches appended so far. The
    output of the network is regrouped into [test_batch_size] rows, so
    [target.view_as(pred)] raises on a batch of another size; the loop
    breaks once [len(correct_predictions) * test_batch_size >= 300]. *)
Fixpoint spike_loop (batches : list nat) (len : nat) : script unit :=
  match batches with
  | [] => ret tt
  | b :: rest =>
      m <- var "sinabs_model" ;;
      emit (EvForward m) ;;;
      raise_unless (bool_decide (b = test_batch_size)) ;;;
      if decide (300 ≤ S len * test_batch_size) then ret tt
      else spike_loop rest (S len)
  end.

(** cell 9; [torch.cat] of no batch raises. *)
Definition evaluate_snn (n_samples : nat) : script unit :=
  spike_loop (batch_sizes n_samples test_batch_size) 0 ;;;
  raise_unless (bool_decide (0 < length (batch_sizes n_samples test_batch_size))) ;;;
  emit EvPrint.

(** cells 10 to 13: the sample [spike_mnist_test[10]] is read
    (IndexError on a test set of fewer than 11 images) and plotted,
    passed through the spiking network, and the output is plotted. *)
Definition visualise (n_samples : nat) : script unit :=
  raise_unless (bool_decide (10 < n_samples)) ;;;
  emit EvPlot ;;;
  m <- var "sinabs_model" ;;
  emit (EvForward m) ;;;
  emit EvPlot.

Definition notebook (n_train n_samples : nat) : script unit :=
  define_ann ;;;
  train n_train ;;;
  evaluate_ann (length (batch_sizes n_samples batch_size)) ;;;
  convert ;;;
  evaluate_snn n_samples ;;;
  visualise n_samples.

(** The operations of the tutorial run from a fresh interpreter. *)
Definition run (n_train n_samples : nat) : option (list event) :=
  (trace ∘ snd) <$> notebook n_train n_samples (State ∅ 0 []).

End WT.

(** *** LeNet_5_EngChinese; [n_train], [n_test] and [n_spike] are the
    numbers of batches of [train_dataloader], [test_dataloader] and
    [spiking_test_dataloader]. *)
Module LN.

(** [train(model, n_epochs)] *)
Definition train (n_train : nat) (model : obj) (n_epochs : nat) : script unit :=
  for_ n_epochs (for_ n_train (emit (EvTrainStep model))).

(** [test(model)]; the accuracy divides by the number of samples. *)
Definition test (n_test : nat) (model : obj) : script unit :=
  emit (EvEvalMode model) ;;;
  for_ n_test (emit (EvForward model)) ;;;
  raise_unless (bool_decide (0 < n_test)) ;;;
  emit EvPrint.

(** The loop of [snn_test] from iteration [i] on. *)
Fixpoint snn_loop (net : obj) (batches i n_test : nat) : script unit :=
  match batches with
  | 0 => ret tt
  | S rest =>
      if decide (n_test < i) then ret tt
      else
        emit (EvResetStates net) ;;;
        emit (EvForward net) ;;;
        snn_loop net rest (S i) n_test
  end.

(** [snn_test(model, n_dt, n_test)] *)
Definition snn_test (n_spike : nat) (model : obj) (n_test : nat) : script unit :=
  net <- from_model model ;;
  emit (EvEvalMode net) ;;;
  snn_loop net n_spike 0 n_test ;;;
  raise_unless (bool_decide (0 < n_test)) ;;;
  emit EvPrint.

(** cells 7 and 8 *)
Definition notebook (n_train n_test n_spike : nat) : script unit :=
  emit (EvDefine (Ann "classifier")) ;;;
  assign "classifier" (Ann "classifier") ;;;
  (classifier <- var "classifier" ;; train n_train classifier 2) ;;;
  (classifier <- var "classifier" ;; test n_test classifier) ;;;
  (classifier <- var "classifier" ;; snn_test n_spike classifier 2000).

End LN.

(** *** The synops tutorial *)
Module SY.

Definition notebook : script unit :=
  emit (EvDefine (Ann "ann")) ;;;
  assign "ann" (Ann "ann") ;;;
  (ann <- var "ann" ;; emit (EvForward ann)) ;;;
  emit EvPrint ;;;
  emit (EvDefine (HandBuilt "snn")) ;;;
  assign "snn" (HandBuilt "snn") ;;;
  emit EvPrint ;;;
  (snn <- var "snn" ;; emit (EvForward snn)) ;;;
  emit EvPrint.

End SY.

(** The tutorials whose runs are described by the numbers of batches of
    their loaders. *)
Inductive tutorial : Type := LeNet5 | SynopsTutorial.

Definition script_of (t : tutorial) (n_train n_test n_spike : nat) : script unit :=
  match t with
  | LeNet5 => LN.notebook n_train n_test n_spike
  | SynopsTutorial => SY.notebook
  end.

(** The operations of a tutorial run from a fresh interpreter. *)
Definition run (t : tutorial) (n_train n_test n_spike : nat) : option (list event) :=
  (trace ∘ snd) <$> script_of t n_train n_test n_spike (State ∅ 0 []).

(** *** Phases of a tutorial *)

Inductive phase : Type :=
| Define | Train | EvaluateAnn | Convert | EvaluateSnn | Plot.

#[global] Instance phase_eq_dec : EqDecision phase.
Proof. solve_decision. Defined.





Definition is_conversion (e : event) : bool :=
  match e with EvFromModel _ _ => true | _ => false end.

Definition is_training (e : event) : bool :=
  match e with EvTrainStep _ => true | _ => false end.

(** The spiking network an operation goes through, if any. *)
Definition spiking_target (e : event) : option obj :=
  match e with
  | EvForward (Ann _) | EvEvalMode (Ann _) | EvResetStates (Ann _) => None
  | EvForward o | EvEvalMode o | EvResetStates o => Some o
  | _ => None
  end.

(** No training step comes after a conversion. *)
Definition no_training_after_conversion (tr : list event) : Prop :=
  ∀ i j e1 e2, tr !! i = Some e1 → tr !! j = Some e2 →
    is_conversion e1 = true → is_training e2 = true → j < i.

(** Every spiking network that is run was returned by an earlier call of
    [from_model]. *)
Definition spiking_after_conversion (tr : list event) : Prop :=
  ∀ j e o, tr !! j = Some e → spiking_target e = Some o →
    ∃ i src h, i < j ∧ tr !! i = Some (EvFromModel src h) ∧ o = Converted h.

(** A converted network is only used after the call that returns it. *)
Definition converted_after_conversion (tr : list event) : Prop :=
  ∀ j e h, tr !! j = Some e → spiking_target e = Some (Converted h) →
    ∃ i src, i < j ∧ tr !! i = Some (EvFromModel src h).


(** The calls of [from_model] in a run. *)
Definition conversions (tr : list event) : list event :=
  filter (λ e, is_conversion e = true) tr.

(** The converted networks that occur in a run. *)
Definition converted_models (tr : list event) : list nat :=
  remove_dups
    (omap (λ e, match e with
                | EvFromModel _ h => Some h
                | _ => match spiking_target e with
                       | Some (Converted h) => Some h
                       | _ => None
                       end
                end) tr).

(** After a call of [from_model] every operation on a spiking network
    goes through the object that call returned. *)
Definition through_returned_object (tr : list event) : Prop :=
  ∀ i j src h e o, tr !! i = Some (EvFromModel src h) → i < j →
    tr !! j = Some e → spiking_target e = Some o → o = Converted h.

(** The operations of the tutorials in closed form; for the
    weight-transfer tutorial [n_test] is the number of batches of
    [test_loader] and [n_spike] the number of full batches of
    [spike_test_loader]. *)
Definition WT_trace (n_train n_test n_spike : nat) : list event :=
  ([EvDefine (Ann "ann")]
   ++ mjoin (replicate 2 (mjoin (replicate n_train [EvTrainStep (Ann "ann")])))
   ++ mjoin (replicate n_test [EvForward (Ann "ann")])
   ++ [EvPrint])
  ++ EvFromModel (Ann "ann") 0 ::
     (replicate (n_spike `min` 30) (EvForward (Converted 0))
      ++ [EvPrint; EvPlot; EvForward (Converted 0); EvPlot]).

Definition LN_trace (n_train n_test n_spike : nat) : list event :=
  ([EvDefine (Ann "classifier")]
   ++ mjoin (replicate 2 (mjoin (replicate n_train [EvTrainStep (Ann "classifier")])))
   ++ [EvEvalMode (Ann "classifier")]
   ++ mjoin (replicate n_test [EvForward (Ann "classifier")])
   ++ [EvPrint])
  ++ EvFromModel (Ann "classifier") 0 ::
     ([EvEvalMode (Converted 0)]
      ++ mjoin (replicate (n_spike `min` 2001)
                          [EvResetStates (Converted 0); EvForward (Converted 0)])
      ++ [EvPrint]).

Definition SY_trace : list event :=
  [ EvDefine (Ann "ann"); EvForward (Ann "ann"); EvPrint;
    EvDefine (HandBuilt "snn"); EvPrint; EvForward (HandBuilt "snn"); EvPrint ].

(** *** Reasoning about scripts *)

(** From the variables [E] and the call counter [h], the script [s]
    returns [v], performs the operations [evs] and leaves the variables
    [E'] and the counter [h']. *)
Definition performs {A} (s : script A) (E : gmap string obj) (h : nat)
    (v : A) (evs : list event) (E' : gmap string obj) (h' : nat) : Prop :=
  ∀ tr, s (State E h tr) = Some (v, State E' h' (tr ++ evs)).

(** An operation that may come before the conversion: it neither
    converts nor touches a spiking network. *)
Definition before_conversion (e : event) : Prop :=
  is_conversion e = false ∧ spiking_target e = None.

(** An operation that may come after the conversion that returned the
    network [h]: it neither converts nor trains, and the only spiking
    network it touches is [h]. *)
Definition after_conversion (h : nat) (e : event) : Prop :=
  is_conversion e = false ∧ is_training e = false ∧
  ∀ o, spiking_target e = Some o → o = Converted h.

(** A run with exactly one conversion, of [src] into the network [h]. *)
Definition converts_once (tr : list event) (src : obj) (h : nat) : Prop :=
  ∃ pre post, tr = pre ++ EvFromModel src h :: post ∧
    Forall before_conversion pre ∧ Forall (after_conversion h) post.

End Notebook.

(** ** The body of the loop of [snn_test] *)

Module LeNetEval.
Import Tensor LeNet.

Section step.
Context {Net : Type}.
Context (reset_states : Net → Net).
Context (spiking_model : Net → tensor Q → option (tensor Q * Net)).

(** One pass through the loop of [snn_test] for a sample that is
    evaluated: the number of correct predictions it adds and the network
    after it. *)
Definition snn_step (net : Net) (n_dt : nat) (sample : batch) : option (Q * Net) :=
  let '(imgs, labels) := sample in
  input_frames ← tensor_tile imgs 0 n_dt;
  let net := reset_states net in
  '(outputs, net) ← spiking_model net input_frames;
  total ← sum_dim_keepdim outputs 0;
  c ← count_correct total labels;
  Some (c, net).

(** Every sample of the loader is classified correctly, whatever the
    state of the network before it. *)
Definition always_right (n_dt : nat) (loader : list batch) : Prop :=
  ∀ net sample, sample ∈ loader →
    ∃ net', snn_step net n_dt sample = Some (1%Q, net').

End step.

(** The outputs of the model have one row of scores per label. *)
Definition one_row_per_label {Model} (forward : Model → tensor Q → option (tensor Q))
    (model : Model) (loader : list batch) : Prop :=
  ∀ imgs labels outputs, (imgs, labels) ∈ loader →
    forward model imgs = Some outputs →
    ∃ b c, shape outputs = [b; c] ∧ shape labels = [b].

End LeNetEval.

(** ** The sizes of the tensors that pass through the networks *)

Module Layers.
Import Tensor.

(** The torch layers of the three tutorials, with the arguments that
    determine the sizes of their output; padding is 0 and dilation 1
    throughout, and pooling rounds down. *)
Inductive layer : Type :=
| Conv2d (in_channels out_channels kernel_size stride : nat)
| ReLU
| NeuromorphicReLU
| AvgPool2d (kernel_size stride : nat)
| MaxPool2d (kernel_size stride : nat)
| Flatten
| Linear (in_features out_features : nat).

(** The size of the output of a sliding window of [k] entries moved by
    [stride] over [h] entries; an error when the window does not fit. *)
Definition window (h k stride : nat) : option nat :=
  if decide (0 < k ∧ 0 < stride ∧ k ≤ h) then Some ((h - k) / stride + 1) else None.

(** The sizes of the output of a layer for a batched input of sizes [s],
    or the RuntimeError of torch: a convolution wants its number of input
    channels, a linear layer its number of input features in the last
    dimension; [Flatten] merges all dimensions after the first. *)
Definition out_shape (l : layer) (s : list nat) : option (list nat) :=
  match l with
  | Conv2d cin cout k stride =>
      match s with
      | [b; c; h; w] =>
          if decide (c = cin) then
            h' ← window h k stride; w' ← window w k stride; Some [b; cout; h'; w']
          else None
      | _ => None
      end
  | ReLU | NeuromorphicReLU => Some s
  | AvgPool2d k stride | MaxPool2d k stride =>
      match s with
      | [b; c; h; w] =>
          h' ← window h k stride; w' ← window w k stride; Some [b; c; h'; w']
      | _ => None
      end
  | Flatten =>
      match s with
      | b :: (_ :: _) as rest => Some [b; numel rest]
      | _ => None
      end
  | Linear fin fout =>
      match reverse s with
      | n :: r => if decide (n = fin) then Some (reverse (fout :: r)) else None
      | [] => None
      end
  end.

(** [nn.Sequential]: the layers are applied in order. *)
Fixpoint forward_shape (layers : list layer) (s : list nat) : option (list nat) :=
  match layers with
  | [] => Some s
  | l :: layers' => s' ← out_shape l s; forward_shape layers' s'
  end.

(** weight_transfer_mnist, cell 1 *)
Definition ann : list layer :=
  [ Conv2d 1 20 5 1; ReLU; AvgPool2d 2 2;
    Conv2d 20 32 5 1; ReLU; AvgPool2d 2 2;
    Conv2d 32 128 3 1; ReLU; AvgPool2d 2 2;
    Flatten; Linear 128 500; ReLU; Linear 500 10 ].

(** LeNet_5_EngChinese, [LeNet5.seq]; [MaxPool2d(kernel_size=2)] moves by
    its kernel size. *)
Definition LeNet5 : list layer :=
  [ Conv2d 1 20 5 1; ReLU; MaxPool2d 2 2;
    Conv2d 20 50 5 1; ReLU; MaxPool2d 2 2;
    Flatten; Linear (4 * 4 * 50) 500; ReLU; Linear 500 10 ].

(** The synops tutorial, [ann]; a convolution without a stride moves by
    1, [AvgPool2d(2)] by its kernel size. *)
Definition synops_ann : list layer :=
  [ Conv2d 1 16 5 1; NeuromorphicReLU; AvgPool2d 2 2;
    Conv2d 16 32 5 1; NeuromorphicReLU; AvgPool2d 2 2;
    Conv2d 32 120 4 1; NeuromorphicReLU;
    Flatten; Linear 120 10 ].

End Layers.

(** ** The synops loss of the synops tutorial *)

From Stdlib Require Import Qabs.
Local Open Scope nat_scope.

Module SynopsLoss.

#[global] Instance Qeq_decision (x y : Q) : Decision (x == y)%Q := Qeq_dec x y.

(** A float32 number: a finite value, an infinity or not-a-number. The
    finite values are rationals: the rounding of the mantissa is not
    modelled, overflow and underflow are; zero is taken as +0. *)
Inductive float32 : Type :=
| Finite (x : Q)
| Infinity (negative : bool)
| NaN.

(** A result of magnitude at least [2^128 - 2^103] rounds to an infinity,
    one of magnitude at most [2^-150] to 0. *)
Definition overflow : Q := inject_Z (2 ^ 128 - 2 ^ 103).
Definition underflow : Q := 1 # (2 ^ 150).

Definition round (x : Q) : float32 :=
  if decide (overflow <= Qabs x)%Q then Infinity (bool_decide (x < 0)%Q)
  else if decide (Qabs x <= underflow)%Q then Finite 0
  else Finite x.

(** [a - b] *)
Definition sub (a b : float32) : float32 :=
  match a, b with
  | NaN, _ | _, NaN => NaN
  | Finite x, Finite y => round (x - y)
  | Infinity s, Finite _ => Infinity s
  | Finite _, Infinity s => Infinity (negb s)
  | Infinity s, Infinity s' => if decide (s = s') then NaN else Infinity s
  end.

(** [a.square()] *)
Definition square (a : float32) : float32 :=
  match a with
  | Finite x => round (x * x)
  | Infinity _ => Infinity false
  | NaN => NaN
  end.

(** [a / b]; a zero divisor raises no error: 0 / 0 is not-a-number and
    any other number over 0 is infinite. *)
Definition div (a b : float32) : float32 :=
  match a, b with
  | NaN, _ | _, NaN => NaN
  | Finite x, Finite y =>
      if decide (y == 0)%Q
      then (if decide (x == 0)%Q then NaN else Infinity (bool_decide (x < 0)%Q))
      else round (x / y)
  | Infinity s, Finite y => Infinity (xorb s (bool_decide (y < 0)%Q))
  | Finite _, Infinity _ => Finite 0
  | Infinity _, Infinity _ => NaN
  end.

(** [(target_synops - synops).square() / target_synops.square()] *)
Definition synops_loss (target_synops synops : float32) : float32 :=
  div (square (sub target_synops synops)) (square target_synops).

(** The last cell for a counter that reads the finite number [total] at
    both calls of [get_total_synops]: the target is set to half of it. *)
Definition cell (total : Q) : float32 :=
  let target_synops := div (Finite total) (Finite 2) in
  let synops := Finite total in
  synops_loss target_synops synops.

(** A value that is not negative: a finite number from 0 on, the
    positive infinity, or not-a-number. *)
Definition not_negative (a : float32) : Prop :=
  match a with
  | Finite x => (0 <= x)%Q
  | Infinity negative => negative = false
  | NaN => True
  end.

(** The square of [x] neither overflows nor underflows to 0. *)
Definition square_in_range (x : Q) : Prop :=
  (underflow < x * x)%Q ∧ (x * x < overflow)%Q.

End SynopsLoss.

(** ** What a run of the workflow publishes *)

Module CIRun.
Import CI.

(** A step called [name] was started in some job of the run. *)
Definition was_started (runs : list job_run) (name : string) : Prop :=
  ∃ jr r, jr ∈ runs ∧ r ∈ instances jr ∧ name ∈ started r.


(** All of the given steps of a job succeed for every combination of its
    matrix. *)
Definition all_ok (ok : string → entry → step → bool) (j : job) (ss : list step) : Prop :=
  ∀ e s, e ∈ expand (matrix j) → s ∈ ss → ok (job_id j) e s = true.

End CIRun.

(** ** How often a run performs an operation *)

Module Workload.
Import Notebook.

(** The number of times the operation [e] occurs in a run. *)
Definition count (e : event) (tr : list event) : nat :=
  length (filter (λ x, x = e) tr).

(** The operation at position [i] is a forward pass through the spiking
    network [net]. *)
Definition spiking_inference (tr : list event) (i : nat) (net : obj) : Prop :=
  tr !! i = Some (EvForward net) ∧ spiking_target (EvForward net) = Some net.

End Workload.

(** ** The accuracy cells of weight_transfer_mnist *)

Module WTEval.
Import Tensor LeNet.

Definition test_batch_size : nat := 10.

(** [t.argmax(dim=d, keepdim=True)]: the indices of [torch.max] along
    [d], with the dimension kept at size 1. *)
Definition argmax_keepdim (t : tensor Q) (d : Z) : option (tensor Z) :=
  '(_, indices) ← max_dim t d;
  k ← wrap_index (dim t) d;
  unsqueeze indices (Z.of_nat k).

(** [t.view_as(other)]: the entries of [t] with the sizes of [other]
    (RuntimeError when the numbers of entries differ). *)
Definition view_as {A B} (t : tensor A) (other : tensor B) : option (tensor A) :=
  if decide (numel (shape t) = numel (shape other))
  then Some (Tensor (shape other) (storage t)) else None.

(** [torch.cat(tensors)] along the first dimension, for tensors of at
    least one dimension whose other sizes agree (RuntimeError otherwise,
    and on an empty list). *)
Definition cat {A} (tensors : list (tensor A)) : option (tensor A) :=
  match tensors with
  | [] => None
  | t :: _ =>
      match shape t with
      | [] => None
      | _ :: rest =>
          if decide (Forall (λ u, shape u ≠ [] ∧ tail (shape u) = rest) tensors)
          then Some (Tensor (sum_list (omap (head ∘ shape) tensors) :: rest)
                            (mjoin (storage <$> tensors)))
          else None
      end
  end.

(** [sl.FlattenTime()(data)]: the first two dimensions are merged. *)
Definition FlattenTime {A} (t : tensor A) : option (tensor A) :=
  match shape t with
  | b :: n :: rest => Some (Tensor (b * n :: rest) (storage t))
  | _ => None
  end.

(** [t.unflatten(0, (a, b))] *)
Definition unflatten {A} (t : tensor A) (a b : nat) : option (tensor A) :=
  match shape t with
  | n :: rest =>
      if decide (a * b = n) then Some (Tensor (a :: b :: rest) (storage t)) else None
  | [] => None
  end.

(** [t.sum(d)] *)
Definition sum_dim (t : tensor Q) (d : Z) : option (tensor Q) :=
  k ← wrap_index (dim t) d;
  tabulate (delete k (shape t)) (λ ix, row ← lane t k ix; Some (foldr Qplus 0%Q row)).

(** [pred.eq(target.view_as(pred))] for the scores [output] of a batch *)
Definition correct (output : tensor Q) (target : tensor Z) : option (tensor bool) :=
  pred ← argmax_keepdim output 1;
  t ← view_as target pred;
  eq pred t.

(** [correct_predictions.sum().item() / len(correct_predictions) * 100]
    after [torch.cat] *)
Definition accuracy (correct_predictions : list (tensor bool)) : option Q :=
  all ← cat correct_predictions;
  n ← len all;
  percentage (inject_Z (Z.of_nat (sum_bool all))) n.

Section loops.
Context {Model Net : Type}.
Context (forward : Model → tensor Q → option (tensor Q)).
Context (sinabs_model : Net → tensor Q → option (tensor Q * Net)).

(** cell 5: the loop over [test_loader] *)
Fixpoint ann_loop (ann : Model) (test_loader : list batch)
    (correct_predictions : list (tensor bool)) : option (list (tensor bool)) :=
  match test_loader with
  | [] => Some correct_predictions
  | (data, target) :: rest =>
      output ← forward ann data;
      c ← correct output target;
      ann_loop ann rest (correct_predictions ++ [c])
  end.

Definition ann_accuracy (ann : Model) (test_loader : list batch) : option Q :=
  correct_predictions ← ann_loop ann test_loader [];
  accuracy correct_predictions.

(** cell 9: the loop over [spike_test_loader]; the spiking network keeps
    its state from one batch to the next. *)
Fixpoint snn_loop (net : Net) (spike_test_loader : list batch)
    (correct_predictions : list (tensor bool)) : option (list (tensor bool)) :=
  match spike_test_loader with
  | [] => Some correct_predictions
  | (data, target) :: rest =>
      data ← FlattenTime data;
      '(output, net) ← sinabs_model net data;
      n ← len output;
      output ← unflatten output test_batch_size (n / test_batch_size);
      total ← sum_dim output 1;
      c ← correct total target;
      let correct_predictions := correct_predictions ++ [c] in
      if decide (300 ≤ length correct_predictions * test_batch_size)
      then Some correct_predictions
      else snn_loop net rest correct_predictions
  end.

Definition snn_accuracy (net : Net) (spike_test_loader : list batch) : option Q :=
  correct_predictions ← snn_loop net spike_test_loader [];
  accuracy correct_predictions.

End loops.

(** The model returns, for every batch of the loader, a well-formed
    matrix of scores with one row per label and at least one column. *)
Definition rows_of_scores {Model} (forward : Model → tensor Q → option (tensor Q))
    (model : Model) (loader : list batch) : Prop :=
  ∀ data target, (data, target) ∈ loader →
    ∃ output b c, forward model data = Some output ∧
      shape output = [b; c] ∧ wf output ∧ 1 ≤ c ∧
      shape target = [b] ∧ wf target.

End WTEval.

(** ** The plotted sample of weight_transfer_mnist *)

Module WTPlot.
Import Tensor WeightTransfer WTEval.

(** cells 10 and 11: [img, label = spike_mnist_test[index]] and the image
    [img.sum(0)[0]] that is shown. *)
Definition collapsed (self : MNIST) (index : Z) (g : generator) : option (tensor Q) :=
  '(img, label, _) ← __getitem__ self index g;
  s ← sum_dim img 0;
  getitem s 0.

(** The number of time steps at which a pixel of gray level [px] at
    row [r] and column [c] gives an event, for the draws that
    [__getitem__] takes from the generator [g]. *)
Definition events (self : MNIST) (g : generator) (px : Byte.byte) (r c : nat) : nat :=
  let T := time_window self in
  length (filter (λ t, spike (samples g (position g + offset [T; 1; 28; 28] [t; 0; r; c])) px
                       = 1%Q)
                 (seq 0 T)).

End WTPlot.

(** * Properties *)

(** ** Facts about tensors *)

Import Tensor.

Section tensor_facts.

Lemma length_indices s : length (indices s) = numel s.
Proof.
  induction s as [|n s IH]; [done|]. simpl.
  generalize 0. induction n as [|n IHn]; intros k; csimpl; [done|].
  rewrite length_app, length_fmap, IH, IHn. done.
Qed.

Lemma lookup_indices s ix : in_range s ix → indices s !! offset s ix = Some ix.
Proof.
  intros H. induction H as [|i n ix s Hi _ IH]; [done|]. simpl.
  apply (join_lookup_Some_same_length' (numel s)).
  - apply Forall_fmap, Forall_forall. intros x _. simpl.
    by rewrite length_fmap, length_indices.
  - rewrite <- length_indices. eapply lookup_lt_Some, IH.
  - eexists. rewrite list_lookup_fmap, lookup_seq_lt by done. simpl.
    split; [done|]. by rewrite list_lookup_fmap, IH.
Qed.

Lemma in_range_indices s ix : ix ∈ indices s → in_range s ix.
Proof.
  revert ix. induction s as [|n s IH]; intros ix; simpl.
  - intros ->%list_elem_of_singleton. constructor.
  - intros (l & Hix & (i & -> & Hi)%list_elem_of_fmap)%list_elem_of_join.
    apply list_elem_of_fmap in Hix as (ix' & -> & Hix').
    apply elem_of_seq in Hi. constructor; [lia|]. by apply IH.
Qed.

Lemma offset_lt s ix : in_range s ix → offset s ix < numel s.
Proof.
  intros H. rewrite <- length_indices.
  eapply lookup_lt_Some, lookup_indices, H.
Qed.

Lemma tabulate_Some {A} s (f : list nat → option A) t :
  tabulate s f = Some t →
  shape t = s ∧ wf t ∧ ∀ ix, in_range s ix → get t ix = f ix.
Proof.
  unfold tabulate. intros (l & Hl & ->)%fmap_Some.
  apply mapM_Some in Hl. split; [done|]. split.
  - unfold wf. simpl. rewrite <- length_indices. symmetry.
    eapply Forall2_length, Hl.
  - intros ix Hix. unfold get. simpl. rewrite decide_True by done.
    destruct (Forall2_lookup_l _ _ _ _ _ Hl (lookup_indices _ _ Hix))
      as (y & -> & ->). done.
Qed.

Lemma tabulate_is_Some {A} s (f : list nat → option A) :
  (∀ ix, in_range s ix → is_Some (f ix)) → is_Some (tabulate s f).
Proof.
  intros H. unfold tabulate. apply fmap_is_Some, mapM_is_Some.
  apply Forall_forall. intros ix Hix. by apply H, in_range_indices.
Qed.

Lemma tabulate_ext {A} s (f g : list nat → option A) :
  (∀ ix, in_range s ix → f ix = g ix) → tabulate s f = tabulate s g.
Proof.
  intros H. unfold tabulate. f_equal.
  assert (Hall : Forall (in_range s) (indices s))
    by (apply Forall_forall; intros; by apply in_range_indices).
  induction Hall as [|ix l Hix _ IH]; [done|].
  simpl. rewrite H, IH by done. done.
Qed.

Lemma in_range_length s ix : in_range s ix → length ix = length s.
Proof. apply Forall2_length. Qed.

Lemma in_range_lookup s ix p c :
  in_range s ix → ix !! p = Some c → ∃ n, s !! p = Some n ∧ c < n.
Proof. apply Forall2_lookup_l. Qed.

Lemma in_range_insert s ix p c n :
  in_range s ix → c < n → in_range (<[p:=n]> s) (<[p:=c]> ix).
Proof. intros. by apply Forall2_insert. Qed.

Lemma get_is_Some {A} (t : tensor A) ix :
  wf t → in_range (shape t) ix → is_Some (get t ix).
Proof.
  intros Hwf Hix. unfold get. rewrite decide_True by done.
  apply lookup_lt_is_Some. rewrite Hwf. by apply offset_lt.
Qed.

Lemma wrap_index_lt n d k : wrap_index n d = Some k → k < n.
Proof. unfold wrap_index. repeat case_decide; intros; simplify_eq; lia. Qed.

Lemma size_Some {A} (t : tensor A) d m :
  size t d = Some m ↔ ∃ k, wrap_index (dim t) d = Some k ∧ shape t !! k = Some m.
Proof. unfold size. rewrite bind_Some. done. Qed.

End tensor_facts.

Import LeNet.

Section tensor_tile_proofs.
Context {A : Type}.
Implicit Types (a r : tensor A) (s ix : list nat).

Lemma zip_with_mul_replicate_1 s : zip_with Nat.mul s (replicate (length s) 1) = s.
Proof. induction s as [|x s IH]; simpl; [done|]. rewrite IH. f_equal. lia. Qed.

Lemma repeat_same_length a reps :
  length reps = Tensor.dim a →
  repeat a reps =
  tabulate (zip_with Nat.mul (shape a) reps)
           (λ ix, get a (zip_with Nat.modulo ix (shape a))).
Proof.
  intros Hlen. unfold repeat. rewrite decide_False by lia.
  rewrite Hlen, Nat.sub_diag. done.
Qed.

Lemma repeat_idx_shape s k m n :
  s !! k = Some m →
  zip_with Nat.mul s (<[k:=n]> (replicate (length s) 1)) = <[k:=m * n]> s.
Proof.
  intros Hk. rewrite <- (list_insert_id s k m) at 1 by done.
  rewrite <- insert_zip_with, zip_with_mul_replicate_1. done.
Qed.

Lemma in_range_modulo s ix k m n :
  s !! k = Some m → 1 ≤ m → in_range (<[k:=m * n]> s) ix →
  in_range s (zip_with Nat.modulo ix s).
Proof.
  intros Hk Hm Hix. apply Forall2_same_length_lookup. split.
  - rewrite length_zip_with_r_eq; [done|].
    apply in_range_length in Hix. by rewrite length_insert in Hix.
  - intros p x y (c & y' & -> & Hc & Hy')%lookup_zip_with_Some Hy.
    simplify_eq. destruct (in_range_lookup _ _ _ _ Hix Hc) as (z & Hz & Hlt).
    destruct (decide (p = k)) as [->|Hne].
    + simplify_eq. apply Nat.mod_upper_bound. lia.
    + rewrite list_lookup_insert_ne in Hz by done. simplify_eq.
      apply Nat.mod_upper_bound. lia.
Qed.

Lemma modulo_insert s ix k m n c :
  s !! k = Some m → in_range (<[k:=m * n]> s) ix →
  zip_with Nat.modulo (<[k:=c]> ix) s = <[k:=c mod m]> ix.
Proof.
  intros Hk Hix. pose proof (in_range_length _ _ Hix) as Hlen.
  rewrite length_insert in Hlen. pose proof (lookup_lt_Some _ _ _ Hk) as Hlt.
  apply list_eq. intros p. rewrite lookup_zip_with.
  destruct (decide (p = k)) as [->|Hne].
  - rewrite !list_lookup_insert_eq by lia. rewrite Hk. done.
  - rewrite !list_lookup_insert_ne by done.
    destruct (ix !! p) as [x|] eqn:Hx; [|done]. simpl.
    destruct (in_range_lookup _ _ _ _ Hix Hx) as (z & Hz & Hxz).
    rewrite list_lookup_insert_ne in Hz by done. rewrite Hz. simpl.
    by rewrite Nat.mod_small.
Qed.

Lemma order_index_rows m n :
  Forall (λ l : list nat, length l = n)
         ((λ i, (λ x, m * x + i) <$> Numpy.arange n) <$> seq 0 m).
Proof.
  apply Forall_fmap, Forall_forall. intros i _. simpl.
  unfold Numpy.arange. by rewrite length_fmap, length_seq.
Qed.

Lemma lookup_order_index m n i j :
  i < m → j < n → order_index m n !! (i * n + j) = Some (m * j + i).
Proof.
  intros Hi Hj. apply (join_lookup_Some_same_length' n);
    [apply order_index_rows|done|].
  eexists. rewrite list_lookup_fmap, lookup_seq_lt by done. split; [done|].
  unfold Numpy.arange. simpl. by rewrite list_lookup_fmap, lookup_seq_lt.
Qed.

Lemma length_order_index m n : length (order_index m n) = m * n.
Proof.
  unfold order_index. rewrite length_join.
  rewrite (sum_list_fmap_same n) by apply order_index_rows.
  by rewrite length_fmap, length_seq.
Qed.

Lemma order_index_bound m n : Forall (λ j, j < m * n) (order_index m n).
Proof.
  apply Forall_forall. intros c.
  intros (l & Hc & (i & -> & Hi)%list_elem_of_fmap)%list_elem_of_join.
  apply list_elem_of_fmap in Hc as (x & -> & Hx).
  apply elem_of_seq in Hi, Hx. nia.
Qed.

Lemma tensor_tile_tiled a d n m :
  wf a → size a d = Some m → 1 ≤ m →
  ∃ r, tensor_tile a d n = Some r ∧ tiled a d n r.
Proof.
  intros Hwf (k & Hd & Hk)%size_Some Hm.
  pose proof (wrap_index_lt _ _ _ Hd) as Hlt.
  (* the repeated tensor *)
  destruct (tabulate_is_Some (<[k:=m * n]> (shape a))
              (λ ix, get a (zip_with Nat.modulo ix (shape a)))) as [a' Ha'].
  { intros ix Hix. apply get_is_Some; [done|]. by eapply in_range_modulo. }
  pose proof (tabulate_Some _ _ _ Ha') as (Hsa' & Hwfa' & Hgeta').
  assert (Hdima' : Tensor.dim a' = Tensor.dim a)
    by (unfold Tensor.dim; by rewrite Hsa', length_insert).
  assert (Hka' : shape a' !! k = Some (m * n))
    by (rewrite Hsa'; by apply list_lookup_insert_eq).
  (* the selected tensor *)
  set (f := λ ix, i ← ix !! k; j ← order_index m n !! i; get a' (<[k:=j]> ix)).
  assert (Hf : ∀ i j ix, i < m → j < n →
            in_range (<[k:=m * n]> (shape a)) ix → ix !! k = Some (i * n + j) →
            f ix = get a' (<[k:=m * j + i]> ix)).
  { intros i j ix Hi Hj Hix Hc. unfold f. rewrite Hc. simpl.
    by rewrite lookup_order_index. }
  assert (Hsplit : ∀ ix, in_range (<[k:=m * n]> (shape a)) ix →
            ∃ i j, i < m ∧ j < n ∧ ix !! k = Some (i * n + j)).
  { intros ix Hix. pose proof (in_range_length _ _ Hix) as Hlen.
    rewrite length_insert in Hlen.
    destruct (lookup_lt_is_Some_2 ix k) as [c Hc]; [unfold Tensor.dim in Hlt; lia|].
    destruct (in_range_lookup _ _ _ _ Hix Hc) as (z & Hz & Hcz).
    rewrite list_lookup_insert_eq in Hz by done. simplify_eq.
    assert (0 < n) by (destruct n; lia).
    exists (c / n), (c mod n). split; [apply Nat.Div0.div_lt_upper_bound; lia|].
    split; [apply Nat.mod_upper_bound; lia|].
    rewrite Hc. f_equal. rewrite (Nat.div_mod_eq c n) at 1. lia. }
  destruct (tabulate_is_Some (<[k:=m * n]> (shape a)) f) as [r Hr].
  { intros ix Hix. destruct (Hsplit ix Hix) as (i & j & Hi & Hj & Hc).
    rewrite (Hf i j) by done. apply get_is_Some; [done|].
    rewrite Hsa'. rewrite <- (list_insert_insert_eq (shape a) k (m * n) (m * n)).
    apply in_range_insert; [done|nia]. }
  pose proof (tabulate_Some _ _ _ Hr) as (Hsr & Hwfr & Hgetr).
  exists r. split.
  - unfold tensor_tile, size. rewrite Hd. simpl. rewrite Hk. simpl.
    unfold list_setitem. rewrite length_replicate, Hd. simpl.
    rewrite repeat_same_length
      by (by rewrite length_insert, length_replicate).
    unfold Tensor.dim at 1. rewrite (repeat_idx_shape _ _ m) by done.
    rewrite Ha'. simpl.
    assert (Hne : seq 0 m ≠ []) by (destruct m; [lia|done]).
    unfold Numpy.concatenate.
    destruct (_ <$> seq 0 m) as [|l ls] eqn:Hrows.
    { by apply fmap_nil_inv in Hrows. }
    rewrite <- Hrows. simpl. fold (order_index m n).
    unfold index_select. rewrite Hdima', Hd. simpl. rewrite Hka'. simpl.
    rewrite decide_True by apply order_index_bound.
    rewrite length_order_index, Hsa', list_insert_insert_eq. exact Hr.
  - exists k, m. split_and!; try done.
    + apply size_Some. exists k. unfold Tensor.dim.
      rewrite Hsr, length_insert. split; [done|].
      by apply list_lookup_insert_eq.
    + intros i j ix Hi Hj Hix Hc. rewrite Hsr in Hix.
      rewrite (Hgetr ix Hix), (Hf i j) by done.
      assert (Hin : in_range (shape a') (<[k:=m * j + i]> ix)).
      { rewrite Hsa'. rewrite <- (list_insert_insert_eq (shape a) k (m * n) (m * n)).
        apply in_range_insert; [done|nia]. }
      split; [by apply get_is_Some|].
      rewrite Hsa' in Hin. rewrite (Hgeta' _ Hin).
      rewrite (modulo_insert _ _ _ m n) by done. do 2 f_equal.
      rewrite Nat.add_comm, Nat.mul_comm, Nat.Div0.mod_add. by apply Nat.mod_small.
Qed.

End tensor_tile_proofs.

(** ** [tensor_tile] *)

(** C6, as amended: for every tensor [a], every valid dimension [d] whose
    size [m] is at least 1 and every [n >= 1], [tensor_tile a d n] returns
    a tensor [r] whose size along [d] is [m * n], whose other sizes are
    those of [a], and whose slice [i * n + j] along [d] is the slice [i]
    of [a]; when [m = 1], every slice of [r] along [d] is the only slice
    of [a]. *)
Theorem tensor_tile_correct {A} (a : tensor A) (d : Z) (n m : nat) :
  wf a → size a d = Some m → 1 ≤ m → 1 ≤ n →
  ∃ r, tensor_tile a d n = Some r ∧ tiled a d n r ∧
       (m = 1 → ∀ k j ix, wrap_index (Tensor.dim a) d = Some k → j < n →
          in_range (shape r) ix → ix !! k = Some j →
          get r ix = get a (<[k:=0]> ix)).
Proof.
  intros Hwf Hsize Hm Hn.
  destruct (tensor_tile_tiled a d n m Hwf Hsize Hm) as (r & Hr & Ht).
  exists r. split_and!; [done..|].
  intros -> k j ix Hk Hj Hix Hlook.
  destruct Ht as (k' & m' & Hk' & Hm' & _ & _ & _ & Hslices).
  simplify_eq. apply size_Some in Hsize as (k'' & ? & ?). simplify_eq.
  apply (Hslices 0 j ix); [lia|done|done|]. by rewrite Hlook.
Qed.

(** The tensor with rows [1 2 3] and [4 5 6], tiled twice along its
    columns. *)
Lemma tensor_tile_correct_witness :
  let a := Tensor [2; 3] [1; 2; 3; 4; 5; 6]%Z in
  ∃ r, tensor_tile a 1 2 = Some r ∧ tiled a 1 2 r ∧
       (3 = 1 → ∀ k j ix, wrap_index (Tensor.dim a) 1 = Some k → j < 2 →
          in_range (shape r) ix → ix !! k = Some j →
          get r ix = get a (<[k:=0]> ix)).
Proof.
  intros a. apply (tensor_tile_correct a 1 2 3); [reflexivity|reflexivity|lia|lia].
Defined.

(** C6 as stated fails on a tensor with an empty dimension: the size of
    the vector [a] of length 0 along dimension 0 is [m = 0], and
    [tensor_tile a 0 1] raises (numpy refuses to concatenate an empty
    list of arrays) instead of returning a tensor of size [0 * 1]. *)
Lemma tensor_tile_empty_dimension :
  let a : tensor Z := Tensor [0] [] in
  wf a ∧ size a 0 = Some 0 ∧ tensor_tile a 0 1 = None ∧
  ¬ ∃ r, tensor_tile a 0 1 = Some r ∧ tiled a 0 1 r.
Proof.
  intros a. split_and!; [reflexivity..|].
  intros (r & Hr & _). vm_compute in Hr. discriminate.
Qed.

(** ** The dataset of the weight-transfer tutorial *)

Import WeightTransfer.

Section more_tensor_facts.
Context {A : Type}.
Implicit Types (t : tensor A) (s ix : list nat).

Lemma getitem_Some t n s index k :
  shape t = n :: s → wf t → wrap_index n index = Some k →
  ∃ x, getitem t index = Some x ∧ shape x = s ∧ wf x ∧
       ∀ ix, in_range s ix → get x ix = get t (k :: ix).
Proof.
  intros Hs Hwf Hk. unfold getitem. rewrite Hs, Hk. simpl.
  destruct (tabulate_is_Some s (λ ix, get t (k :: ix))) as [x Hx].
  { intros ix Hix. apply get_is_Some; [done|]. rewrite Hs.
    constructor; [by eapply wrap_index_lt|done]. }
  exists x. split; [done|]. by apply tabulate_Some in Hx.
Qed.

Lemma unsqueeze_0 t :
  wf t →
  ∃ x, unsqueeze t 0 = Some x ∧ shape x = 1 :: shape t ∧ wf x ∧
       ∀ ix, in_range (shape t) ix → get x (0 :: ix) = get t ix.
Proof.
  intros Hwf. unfold unsqueeze.
  assert (wrap_index (S (Tensor.dim t)) 0 = Some 0) as ->.
  { unfold wrap_index. rewrite decide_True by lia. done. }
  simpl. rewrite drop_0.
  destruct (tabulate_is_Some (1 :: shape t) (λ ix, get t (delete 0 ix))) as [x Hx].
  { intros ix Hix. inversion Hix; subst. simpl. by apply get_is_Some. }
  exists x. split; [done|]. apply tabulate_Some in Hx as (? & ? & Hget).
  split_and!; [done..|]. intros ix Hix.
  rewrite Hget by (constructor; [lia|done]). done.
Qed.

Lemma get_map {B} (f : A → B) t ix : get (map f t) ix = f <$> get t ix.
Proof.
  unfold get, map. simpl. case_decide; [|done]. by rewrite list_lookup_fmap.
Qed.

Lemma wf_map {B} (f : A → B) t : wf t → wf (map f t).
Proof. unfold wf, map. simpl. by rewrite length_fmap. Qed.

End more_tensor_facts.

Lemma rand_spec g s :
  shape (rand g s).1 = s ∧ wf (rand g s).1 ∧
  position (rand g s).2 = position g + numel s ∧
  ∀ ix, in_range s ix →
    get (rand g s).1 ix = Some (samples g (position g + offset s ix)).
Proof.
  unfold rand. simpl. split_and!; [done| |done|].
  - unfold wf. simpl. by rewrite length_fmap, length_seq.
  - intros ix Hix. unfold get. simpl. rewrite decide_True by done.
    rewrite list_lookup_fmap, lookup_seq_lt by by apply offset_lt. done.
Qed.

Lemma broadcast_rev_prefix r p : broadcast_rev (r ++ p) r = Some (r ++ p).
Proof.
  induction r as [|x r IH]; simpl; [by destruct p|].
  rewrite decide_True by done. simpl. by rewrite IH.
Qed.

Lemma broadcast_shapes_prefix p s : broadcast_shapes (p ++ s) s = Some (p ++ s).
Proof.
  unfold broadcast_shapes. rewrite reverse_app, broadcast_rev_prefix. simpl.
  by rewrite <- reverse_app, reverse_involutive.
Qed.

Lemma broadcast_shapes_same s : broadcast_shapes s s = Some s.
Proof. apply (broadcast_shapes_prefix []). Qed.

Lemma broadcast_index_self s ix : in_range s ix → broadcast_index s ix = ix.
Proof.
  intros Hix. unfold broadcast_index.
  rewrite (in_range_length _ _ Hix), Nat.sub_diag, drop_0.
  induction Hix as [|i n ix s Hi _ IH]; simpl; [done|].
  rewrite IH. f_equal. case_decide; lia.
Qed.

Lemma in_range_app_inv p s ix :
  in_range (p ++ s) ix → in_range s (drop (length p) ix).
Proof.
  intros H. unfold in_range in *.
  rewrite <- (drop_app_length p s). by apply Forall2_drop.
Qed.

Lemma broadcast_index_suffix p s ix :
  in_range (p ++ s) ix → broadcast_index s ix = drop (length p) ix.
Proof.
  intros Hix. pose proof (in_range_app_inv _ _ _ Hix) as Hd.
  etrans; [|by apply broadcast_index_self].
  unfold broadcast_index. f_equal.
  apply in_range_length in Hix, Hd. rewrite length_app in Hix.
  rewrite length_drop in Hd. rewrite drop_drop, length_drop. f_equal. lia.
Qed.

Lemma broadcast_map2_prefix {A B C} (f : A → B → C) (a : tensor A) (b : tensor B) p :
  wf a → wf b → shape a = p ++ shape b →
  ∃ r, broadcast_map2 f a b = Some r ∧ shape r = shape a ∧ wf r ∧
       ∀ ix, in_range (shape a) ix →
         get r ix = (x ← get a ix; y ← get b (drop (length p) ix); Some (f x y)).
Proof.
  intros Hwfa Hwfb Hs. unfold broadcast_map2.
  rewrite Hs, broadcast_shapes_prefix. simpl. rewrite <- Hs.
  set (g := λ ix, x ← get a (broadcast_index (shape a) ix);
                  y ← get b (broadcast_index (shape b) ix); Some (f x y)).
  assert (Hg : ∀ ix, in_range (shape a) ix →
            g ix = (x ← get a ix; y ← get b (drop (length p) ix); Some (f x y))).
  { intros ix Hix. unfold g. rewrite (broadcast_index_self (shape a)) by done.
    rewrite (broadcast_index_suffix p) by (by rewrite <- Hs). done. }
  destruct (tabulate_is_Some (shape a) g) as [r Hr].
  { intros ix Hix. rewrite Hg by done.
    destruct (get_is_Some a ix Hwfa Hix) as [x ->]. simpl.
    destruct (get_is_Some b (drop (length p) ix) Hwfb) as [y ->]; [|done].
    apply in_range_app_inv. by rewrite <- Hs. }
  exists r. split; [done|]. apply tabulate_Some in Hr as (? & ? & Hget).
  split_and!; [done..|]. intros ix Hix. rewrite Hget by done. by apply Hg.
Qed.

(** Indices given coordinate by coordinate. *)
Ltac solve_in_range :=
  unfold in_range; repeat (constructor 2; [first [done|lia]|]); constructor 1.

Lemma gray_bounds px : (0 <= gray px)%Q ∧ (gray px <= 1)%Q.
Proof.
  unfold gray, Qle. simpl. pose proof (Byte.to_N_bounded px). lia.
Qed.

(** Of the 255 equally spaced draws [j / 255] exactly as many as the gray
    level of the pixel give an event. *)
Lemma spike_rate px :
  length (filter (λ j, spike (Z.of_nat j # 255) px = 1%Q) (seq 0 255))
  = N.to_nat (Byte.to_N px).
Proof. destruct px; vm_compute; reflexivity. Qed.

Lemma getitem_image (self : MNIST) N s index k :
  shape (data self) = N :: s → wf (data self) → wrap_index N index = Some k →
  ∃ x, (x0 ← getitem (data self) index; unsqueeze x0 0) = Some x ∧
       shape x = 1 :: s ∧ wf x ∧
       ∀ ix, in_range s ix → get x (0 :: ix) = get (data self) (k :: ix).
Proof.
  intros Hs Hwf Hk.
  destruct (getitem_Some _ _ _ _ _ Hs Hwf Hk) as (x0 & -> & Hs0 & Hwf0 & Hget0).
  simpl. destruct (unsqueeze_0 x0 Hwf0) as (x & -> & Hsx & Hwfx & Hgetx).
  exists x. rewrite Hsx, Hs0. split_and!; [done..|].
  intros ix Hix. rewrite Hgetx by (by rewrite Hs0). by apply Hget0.
Qed.

Lemma getitem_plain (self : MNIST) N s index k g :
  shape (data self) = N :: s → wf (data self) → length (targets self) = N →
  wrap_index N index = Some k → is_spiking self = false →
  ∃ img target, __getitem__ self index g = Some (img, target, g) ∧
    targets self !! k = Some target ∧
    shape img = 1 :: s ∧ wf img ∧
    Forall (λ x, (0 <= x)%Q ∧ (x <= 1)%Q) (storage img) ∧
    ∀ ix, in_range s ix →
      ∃ px, get (data self) (k :: ix) = Some px ∧ get img (0 :: ix) = Some (gray px).
Proof.
  intros Hs Hwf Hlen Hk Hspk. unfold __getitem__.
  destruct (getitem_image self N s index k Hs Hwf Hk) as (x & Hx & Hsx & Hwfx & Hgetx).
  apply bind_Some in Hx as (x0 & -> & Hx). simpl. rewrite Hx. simpl.
  rewrite Hlen, Hk. simpl.
  destruct (lookup_lt_is_Some_2 (targets self) k) as [target Ht].
  { rewrite Hlen. by eapply wrap_index_lt. }
  rewrite Ht, Hspk. simpl. eexists _, _. split_and!; [done..| |by apply wf_map| |].
  - done.
  - unfold true_divide, map. simpl. apply Forall_fmap, Forall_forall.
    intros px _. apply gray_bounds.
  - intros ix Hix. unfold true_divide. rewrite get_map, Hgetx by done.
    assert (in_range (shape (data self)) (k :: ix)) as Hin.
    { rewrite Hs. constructor; [by eapply wrap_index_lt|done]. }
    destruct (get_is_Some _ _ Hwf Hin) as [px Hpx]. exists px. by rewrite Hpx.
Qed.

#[local] Arguments offset : simpl never.
#[local] Opaque rand.

Lemma getitem_spiking (self : MNIST) N s index k g :
  shape (data self) = N :: s → wf (data self) → length (targets self) = N →
  wrap_index N index = Some k → is_spiking self = true →
  let T := time_window self in
  ∃ raster target g', __getitem__ self index g = Some (raster, target, g') ∧
    targets self !! k = Some target ∧
    shape raster = T :: 1 :: s ∧ wf raster ∧
    Forall (λ x, x = 0%Q ∨ x = 1%Q) (storage raster) ∧
    ∀ t ix, t < T → in_range s ix →
      ∃ px, get (data self) (k :: ix) = Some px ∧
        get raster (t :: 0 :: ix)
        = Some (spike (samples g (position g + offset (T :: 1 :: s) (t :: 0 :: ix))) px).
Proof.
  intros Hs Hwf Hlen Hk Hspk T. unfold __getitem__.
  destruct (getitem_image self N s index k Hs Hwf Hk) as (x & Hx & Hsx & Hwfx & Hgetx).
  apply bind_Some in Hx as (x0 & -> & Hx). simpl. rewrite Hx. simpl.
  rewrite Hlen, Hk. simpl.
  destruct (lookup_lt_is_Some_2 (targets self) k) as [target Ht].
  { rewrite Hlen. by eapply wrap_index_lt. }
  rewrite Ht, Hspk. simpl. fold T.
  set (img := true_divide x 255).
  assert (Hsi : shape img = 1 :: s) by done.
  change (shape img) with (shape x) in *.
  pose proof (rand_spec g (T :: shape x)) as (Hsr & Hwfr & _ & Hgetr).
  destruct (rand g (T :: shape x)) as [r g'] eqn:Hrand. simpl in *.
  destruct (broadcast_map2_prefix (λ x y, bool_decide (x < y)%Q) r img [T])
    as (b & Hb & Hsb & Hwfb & Hgetb); [done|by apply wf_map|by rewrite Hsr|].
  unfold lt. rewrite Hb. simpl. eexists _, _, _. split_and!; [done..| | | |].
  - simpl. by rewrite Hsb, Hsr, Hsi.
  - by apply wf_map.
  - unfold float, map. simpl. apply Forall_fmap, Forall_forall.
    intros [] _; simpl; auto.
  - intros t ix Ht' Hix.
    assert (in_range (shape (data self)) (k :: ix)) as Hin.
    { rewrite Hs. constructor; [by eapply wrap_index_lt|done]. }
    destruct (get_is_Some _ _ Hwf Hin) as [px Hpx]. exists px. split; [done|].
    assert (in_range (T :: shape x) (t :: 0 :: ix)) as Hin'.
    { rewrite Hsi. constructor; [done|]. constructor; [lia|done]. }
    unfold float. rewrite get_map, Hgetb by (by rewrite Hsr).
    rewrite Hgetr by done. simpl.
    unfold img, true_divide. rewrite get_map, Hgetx, Hpx by done. simpl.
    rewrite Hsi. unfold spike, gray. done.
Qed.

(** C1: for every dataset of [N] images of 28 by 28 pixels and every
    valid index, [__getitem__] with [is_spiking] set returns the label and
    a raster of sizes [(T, 1, 28, 28)] whose entries are all 0 or 1: the
    entry at time step [t] and pixel [(r, c)] is 1 exactly when the draw
    for it is below the gray level of the pixel divided by 255, which for
    evenly spread draws happens at a rate equal to that gray level.
    Without [is_spiking] it returns the image of sizes [(1, 28, 28)] with
    every pixel divided by 255, hence in the interval from 0 to 1. *)
Theorem MNIST_getitem_spec (self : MNIST) (N : nat) (index : Z) (k : nat)
    (g : generator) :
  wf_dataset self N → wrap_index N index = Some k →
  let T := time_window self in
  (is_spiking self = true →
     ∃ raster target g',
       __getitem__ self index g = Some (raster, target, g') ∧
       targets self !! k = Some target ∧
       shape raster = [T; 1; 28; 28] ∧ wf raster ∧
       Forall (λ x, x = 0%Q ∨ x = 1%Q) (storage raster) ∧
       ∀ t r c, t < T → r < 28 → c < 28 →
         ∃ px, get (data self) [k; r; c] = Some px ∧
           get raster [t; 0; r; c]
           = Some (spike (samples g (position g
                            + offset [T; 1; 28; 28] [t; 0; r; c])) px)) ∧
  (is_spiking self = false →
     ∃ img target,
       __getitem__ self index g = Some (img, target, g) ∧
       targets self !! k = Some target ∧
       shape img = [1; 28; 28] ∧ wf img ∧
       Forall (λ x, (0 <= x)%Q ∧ (x <= 1)%Q) (storage img) ∧
       ∀ r c, r < 28 → c < 28 →
         ∃ px, get (data self) [k; r; c] = Some px ∧
           get img [0; r; c] = Some (gray px)) ∧
  (∀ px, length (filter (λ j, spike (Z.of_nat j # 255) px = 1%Q) (seq 0 255))
         = N.to_nat (Byte.to_N px)).
Proof.
  intros (Hs & Hwf & Hlen) Hk T. split_and!.
  - intros Hspk.
    destruct (getitem_spiking self N [28; 28] index k g Hs Hwf Hlen Hk Hspk)
      as (raster & target & g' & ? & ? & ? & ? & ? & Hget).
    exists raster, target, g'. split_and!; [done..|].
    intros t r c Ht Hr Hc. apply Hget; [done|]. solve_in_range.
  - intros Hspk.
    destruct (getitem_plain self N [28; 28] index k g Hs Hwf Hlen Hk Hspk)
      as (img & target & ? & ? & ? & ? & ? & Hget).
    exists img, target. split_and!; [done..|].
    intros r c Hr Hc. apply Hget. solve_in_range.
  - apply spike_rate.
Qed.

(** A dataset of one mid-gray image with label 7, read at index 0 with a
    time window of 2 and a generator that always draws 1/2. *)
Lemma MNIST_getitem_spec_witness :
  let self := mkMNIST (Tensor [1; 28; 28] (replicate 784 Byte.x80)) [7%Z] true 2 in
  let g := Generator (λ _, 1 # 2) 0 in
  wf_dataset self 1 ∧ wrap_index 1 0 = Some 0 ∧
  ∃ raster target g',
    __getitem__ self 0 g = Some (raster, target, g') ∧
    targets self !! 0 = Some target ∧
    shape raster = [2; 1; 28; 28] ∧
    Forall (λ x, x = 0%Q ∨ x = 1%Q) (storage raster).
Proof.
  intros self g.
  assert (Hwf : wf_dataset self 1) by (repeat split; reflexivity).
  assert (Hk : wrap_index 1 0 = Some 0) by reflexivity.
  split; [exact Hwf|]. split; [exact Hk|].
  destruct (MNIST_getitem_spec self 1 0 0 g Hwf Hk) as [Hspiking _].
  destruct (Hspiking eq_refl) as (raster & target & g' & H1 & H2 & H3 & _ & H4 & _).
  exists raster, target, g'. repeat split; assumption.
Defined.

(** ** [count_correct] *)

Lemma get_1d {A} (t : tensor A) b i :
  shape t = [b] → i < b → get t [i] = storage t !! i.
Proof.
  intros Hs Hi. unfold get. rewrite Hs, decide_True by solve_in_range.
  unfold offset. simpl. f_equal. lia.
Qed.

(** The entries along dimension 1 of a matrix at row [i] are the [i]-th
    block of [c] entries of its storage. *)
Lemma lane_row {A} (t : tensor A) b c i :
  shape t = [b; c] → wf t → i < b →
  lane t 1 [i] = Some (take c (drop (i * c) (storage t))).
Proof.
  intros Hs Hwf Hi. unfold lane. rewrite Hs. simpl.
  unfold wf in Hwf. rewrite Hs in Hwf. simpl in Hwf.
  apply mapM_Some, Forall2_same_length_lookup. split.
  - rewrite length_seq, length_take, length_drop. nia.
  - intros p j y (-> & Hp)%lookup_seq Hy. simpl.
    rewrite lookup_take_Some in Hy. destruct Hy as [Hy _].
    rewrite lookup_drop in Hy.
    unfold get. rewrite Hs, decide_True by solve_in_range.
    unfold offset. simpl. rewrite <- Hy. f_equal. lia.
Qed.

Lemma first_max_unique row k1 k2 : first_max row k1 → first_max row k2 → k1 = k2.
Proof.
  unfold first_max. intros H1 H2.
  destruct (row !! k1) as [x1|] eqn:E1; [|done].
  destruct (row !! k2) as [x2|] eqn:E2; [|done].
  destruct H1 as [Hle1 Hlt1], H2 as [Hle2 Hlt2].
  destruct (Nat.lt_trichotomy k1 k2) as [Hk|[Hk|Hk]]; [|done|]; exfalso.
  - assert (x1 < x2)%Q as Hc.
    { eapply (proj1 (Forall_lookup _ _) Hlt2 k1). by rewrite lookup_take_lt. }
    assert (x2 <= x1)%Q by (eapply (proj1 (Forall_lookup _ _) Hle1); done).
    eapply Qlt_irrefl, Qlt_le_trans; done.
  - assert (x2 < x1)%Q as Hc.
    { eapply (proj1 (Forall_lookup _ _) Hlt1 k2). by rewrite lookup_take_lt. }
    assert (x1 <= x2)%Q by (eapply (proj1 (Forall_lookup _ _) Hle2); done).
    eapply Qlt_irrefl, Qlt_le_trans; done.
Qed.

Lemma max_from_first_max pre best best_i row :
  pre !! best_i = Some best →
  Forall (λ y, (y <= best)%Q) pre →
  Forall (λ y, (y < best)%Q) (take best_i pre) →
  first_max (pre ++ row) (max_from best best_i (length pre) row).2.
Proof.
  revert pre best best_i.
  induction row as [|x row IH]; intros pre best best_i Hb Hle Hlt; simpl.
  - rewrite app_nil_r. unfold first_max. rewrite Hb. done.
  - pose proof (lookup_lt_Some _ _ _ Hb) as Hlen.
    replace (pre ++ x :: row) with ((pre ++ [x]) ++ row) by by rewrite <- app_assoc.
    replace (S (length pre)) with (length (pre ++ [x]))
      by (rewrite length_app; simpl; lia).
    case_decide as Hx.
    + apply IH.
      * by rewrite lookup_app_r, Nat.sub_diag by lia.
      * apply Forall_app. split; [|by repeat constructor; apply Qle_refl].
        eapply Forall_impl; [done|]. intros y Hy. simpl in Hy.
        apply Qlt_le_weak. eapply Qle_lt_trans; done.
      * rewrite take_app_le, take_ge by lia.
        eapply Forall_impl; [done|]. intros y Hy. simpl in Hy.
        eapply Qle_lt_trans; done.
    + apply IH.
      * by rewrite lookup_app_l by lia.
      * apply Forall_app. split; [done|]. repeat constructor.
        by apply Qnot_lt_le.
      * rewrite take_app_le by lia. done.
Qed.

Lemma max_row_first_max row :
  row ≠ [] → ∃ x k, max_row row = Some (x, k) ∧ first_max row k.
Proof.
  destruct row as [|x row]; [done|]. intros _. simpl.
  destruct (max_from x 0 1 row) as [y k] eqn:E. exists y, k. split; [done|].
  pose proof (max_from_first_max [x] x 0 row eq_refl) as H.
  simpl in H. rewrite E in H. apply H; repeat constructor. apply Qle_refl.
Qed.

Lemma count_true_filter (l : list bool) (P : nat → Prop) `{!∀ i, Decision (P i)} s :
  (∀ i, i < length l → (l !! i = Some true ↔ P (s + i))) →
  length (filter (λ b : bool, b = true) l) = length (filter P (seq s (length l))).
Proof.
  revert s. induction l as [|b l IH]; intros s Hiff; [done|]. simpl.
  assert (Hl : length (filter (λ b : bool, b = true) l)
               = length (filter P (seq (S s) (length l)))).
  { apply IH. intros i Hi. replace (S s + i) with (s + S i) by lia.
    rewrite <- (Hiff (S i)) by (simpl; lia). done. }
  specialize (Hiff 0 ltac:(simpl; lia)). rewrite Nat.add_0_r in Hiff.
  simpl in Hiff. rewrite !filter_cons. destruct b.
  - rewrite decide_True by done. rewrite decide_True by (by apply Hiff).
    simpl. by rewrite Hl.
  - rewrite decide_False by done. rewrite decide_False; [done|].
    intros HP. apply Hiff in HP. done.
Qed.

Lemma length_filter_le {A} (P : A → Prop) `{!∀ x, Decision (P x)} (l : list A) :
  length (filter P l) ≤ length l.
Proof.
  induction l as [|x l IH]; [done|]. rewrite filter_cons.
  case_decide; simpl; lia.
Qed.

(** C7, as amended: for every output matrix with [b] rows and at least
    one column and every target vector of length [b], [count_correct]
    returns the number of rows [i] whose first maximum is at column
    [target[i]]; it is a whole number between 0 and [b]. *)
Theorem count_correct_spec (output : tensor Q) (target : tensor Z) (b c : nat) :
  shape output = [b; c] → wf output → shape target = [b] → wf target → 1 ≤ c →
  ∃ n : nat,
    count_correct output target = Some (inject_Z (Z.of_nat n)) ∧
    n = length (filter (predicted_correctly output target) (seq 0 b)) ∧
    n ≤ b.
Proof.
  intros Hso Hwfo Hst Hwft Hc.
  assert (Hrow : ∀ ix, in_range [b] ix →
            ∃ i row x k, ix = [i] ∧ i < b ∧ lane output 1 ix = Some row ∧
                         max_row row = Some (x, k) ∧ first_max row k).
  { intros ix Hix. inversion Hix as [|i ? ? ? Hi Hnil]; subst.
    inversion Hnil; subst.
    pose proof (lane_row output b c i Hso Hwfo Hi) as Hl.
    destruct (max_row_first_max (take c (drop (i * c) (storage output))))
      as (x & k & Hmax & Hfm).
    { intros Hnil'. apply (f_equal length) in Hnil'.
      rewrite length_take, length_drop in Hnil'. unfold wf in Hwfo.
      rewrite Hso in Hwfo. simpl in *. nia. }
    by eexists i, _, x, k. }
  unfold count_correct, max_dim, Tensor.dim. rewrite Hso.
  change (wrap_index (length [b; c]) 1) with (Some 1).
  cbn [mbind option_bind lookup list_lookup delete list_delete].
  rewrite decide_False by lia.
  destruct (tabulate_is_Some [b] (λ ix, row ← lane output 1 ix; fst <$> max_row row))
    as [values Hv].
  { intros ix (i & row & x & k & -> & _ & -> & Hmax & _)%Hrow. simpl.
    by rewrite Hmax. }
  set (fi := λ ix, row ← lane output 1 ix; (Z.of_nat ∘ snd) <$> max_row row).
  destruct (tabulate_is_Some [b] fi) as [predicted Hp].
  { intros ix (i & row & x & k & -> & _ & Hl & Hmax & _)%Hrow. unfold fi.
    rewrite Hl. simpl. by rewrite Hmax. }
  rewrite Hv. simpl. rewrite Hp. simpl.
  apply tabulate_Some in Hp as (Hsp & Hwfp & Hgetp).
  destruct (broadcast_map2_prefix (λ x y : Z, bool_decide (x = y)) predicted target [])
    as (acc & Hacc & Hsa & Hwfa & Hgeta); [done..|by rewrite Hsp, Hst|].
  unfold eq. rewrite Hacc. simpl. rewrite Hsp in Hsa, Hgeta.
  assert (Hlen : length (storage acc) = b).
  { unfold wf in Hwfa. rewrite Hsa in Hwfa. simpl in Hwfa. lia. }
  exists (sum_bool acc). split; [done|]. split.
  - unfold sum_bool. rewrite <- Hlen at 1. apply count_true_filter.
    rewrite Hlen. intros i Hi. simpl.
    rewrite <- (get_1d acc b) by done. rewrite Hgeta by solve_in_range.
    rewrite Hgetp by solve_in_range. simpl.
    destruct (Hrow [i]) as (i' & row & x & k & [= <-] & _ & Hl & Hmax & Hfm);
      [solve_in_range|].
    unfold fi, predicted_correctly. rewrite Hl. simpl. rewrite Hmax. simpl.
    assert (in_range (shape target) [i]) as Hin by (rewrite Hst; solve_in_range).
    destruct (get_is_Some target [i] Hwft Hin) as [t Ht]. rewrite Ht. simpl.
    split.
    + intros [= Heq%bool_decide_eq_true]. subst t.
      split; [lia|]. by rewrite Nat2Z.id.
    + intros [Hpos Hfm']. f_equal. apply bool_decide_eq_true.
      rewrite (first_max_unique _ _ _ Hfm Hfm'). lia.
  - unfold sum_bool. rewrite <- Hlen at 1. apply length_filter_le.
Qed.

(** The two rows [1 5 5] and [0 0 0] with targets 1 and 0: both rows are
    predicted correctly. *)
Lemma count_correct_spec_witness :
  let output := Tensor [2; 3] [1; 5; 5; 0; 0; 0]%Q in
  let target := Tensor [2] [1; 0]%Z in
  ∃ n : nat,
    count_correct output target = Some (inject_Z (Z.of_nat n)) ∧
    n = length (filter (predicted_correctly output target) (seq 0 2)) ∧
    n ≤ 2.
Proof.
  intros output target.
  apply (count_correct_spec output target 2 3); [reflexivity..|lia].
Defined.

(** C7 as stated fails on a matrix without columns: no row has a maximum,
    so the number of correctly predicted rows is 0, but [torch.max]
    raises on the empty dimension and [count_correct] returns nothing;
    this is so for two rows and for no row at all. *)
Lemma count_correct_no_columns :
  let output2 : tensor Q := Tensor [2; 0] [] in
  let target2 : tensor Z := Tensor [2] [0; 0]%Z in
  let output0 : tensor Q := Tensor [0; 0] [] in
  let target0 : tensor Z := Tensor [0] [] in
  (wf output2 ∧ wf target2 ∧
   length (filter (predicted_correctly output2 target2) (seq 0 2)) = 0 ∧
   count_correct output2 target2 = None) ∧
  (wf output0 ∧ wf target0 ∧
   length (filter (predicted_correctly output0 target0) (seq 0 0)) = 0 ∧
   count_correct output0 target0 = None).
Proof. repeat split; reflexivity. Qed.

(** ** Accuracy figures of the LeNet tutorial *)

Section accuracy.
Context {Model Net : Type}.
Context (forward : Model → tensor Q → option (tensor Q)).
Context (from_model : Model → list nat → Q → Q → Q → Net).
Context (reset_states : Net → Net).
Context (spiking_model : Net → tensor Q → option (tensor Q * Net)).

(** [test] divides by the number of samples it has evaluated. *)
Lemma test_loop_total model loader n_correct n_test n_correct' n_test' :
  test_loop forward model loader n_correct n_test = Some (n_correct', n_test') →
  ∃ n, total_len loader = Some n ∧ n_test' = n_test + n.
Proof.
  revert n_correct n_test.
  induction loader as [|[imgs labels] loader IH]; intros n_correct n_test; simpl.
  - intros [= _ <-]. exists 0. split; [done|lia].
  - intros H.
    apply bind_Some in H as (outputs & _ & H).
    apply bind_Some in H as (c & _ & H).
    apply bind_Some in H as (n & Hn & H).
    apply IH in H as (m & -> & ->). rewrite Hn. simpl.
    exists (n + m). split; [done|lia].
Qed.

Lemma test_denominator model loader acc :
  test forward model loader = Some acc →
  ∃ n_correct n, total_len loader = Some n ∧ 0 < n ∧
    acc = (n_correct / inject_Z (Z.of_nat n) * 100)%Q.
Proof.
  unfold test. intros H. apply bind_Some in H as ([n_correct n] & Hloop & H).
  apply test_loop_total in Hloop as (m & Hm & ->). simpl in *.
  unfold percentage in H. case_decide; [done|]. simplify_eq.
  exists n_correct, m. split_and!; [done|lia|done].
Qed.

(** [snn_test] evaluates the samples at positions 0 to [n_test]: one more
    than [n_test], the number it divides by. *)
Lemma snn_loop_take net n_dt n_test i loader n_correct :
  snn_loop reset_states spiking_model net n_dt n_test i loader n_correct
  = snn_loop reset_states spiking_model net n_dt n_test i
      (take (S n_test - i) loader) n_correct.
Proof.
  revert net i n_correct.
  induction loader as [|[imgs labels] loader IH]; intros net i n_correct.
  - by rewrite take_nil.
  - destruct (decide (n_test < i)) as [Hlt|Hge].
    + replace (S n_test - i) with 0 by lia. cbn [snn_loop firstn].
      by rewrite decide_True.
    + replace (S n_test - i) with (S (S n_test - S i)) by lia.
      cbn [snn_loop firstn]. repeat case_decide; try lia.
      destruct (tensor_tile imgs 0 n_dt) as [frames|]; [|done].
      cbn [mbind option_bind].
      destruct (spiking_model (reset_states net) frames) as [[outputs net']|];
        [|done].
      cbn [mbind option_bind].
      destruct (sum_dim_keepdim outputs 0) as [total|]; [|done].
      cbn [mbind option_bind].
      destruct (count_correct total labels) as [c|]; [|done].
      cbn [mbind option_bind]. apply IH.
Qed.

Lemma snn_test_take model n_dt n_test loader :
  snn_test from_model reset_states spiking_model model n_dt n_test loader
  = snn_test from_model reset_states spiking_model model n_dt n_test
      (take (S n_test) loader).
Proof.
  unfold snn_test. rewrite snn_loop_take. by rewrite Nat.sub_0_r.
Qed.

End accuracy.

(** C3 fails for [snn_test]: with [n_test = 1] and a loader of two
    samples that the network classifies correctly, [snn_test] evaluates
    both samples but divides by 1 and reports 200 percent. *)
Theorem snn_test_reports_200_percent :
  let loader := [sample_of_class 3; sample_of_class 5] in
  ∃ acc, oracle_snn_test 1 1 loader = Some acc ∧ (acc == 200)%Q ∧ (100 < acc)%Q.
Proof.
  intros loader. eexists. split; [vm_compute; reflexivity|]. split; reflexivity.
Qed.

(** ** The class [SNN] of the synops tutorial *)

Section snn_class.
Import Synops.

Lemma getattr_net self depth :
  has_no_net self → getattr (S depth) self "net" = Raise (AttributeError "net").
Proof.
  intros (Hd & Hp & Hb & Hm). simpl.
  change (SNN_class "net") with (@None class_attr). simpl.
  unfold Module___getattr__. by rewrite Hd, Hp, Hb, Hm.
Qed.

Lemma getattr_spiking_layers self depth :
  has_no_net self →
  _parameters self !! "spiking_layers" = None →
  _buffers self !! "spiking_layers" = None →
  odict_get (_modules self) "spiking_layers" = None →
  getattr (S (S depth)) self "spiking_layers"
  = Raise (AttributeError "spiking_layers").
Proof.
  intros Hnet Hp Hb Hm.
  change (getattr (S (S depth)) self "spiking_layers")
    with (match spiking_layers_body (getattr (S depth)) self with
          | Raise (AttributeError _) => Module___getattr__ self "spiking_layers"
          | r => r
          end).
  unfold spiking_layers_body. rewrite getattr_net by done. simpl.
  unfold Module___getattr__. by rewrite Hp, Hb, Hm.
Qed.

Lemma SNN_has_no_net batch_size : has_no_net (SNN___init__ batch_size).
Proof. repeat split; vm_compute; reflexivity. Qed.

(** C4: on every instance of [SNN], reading the property [spiking_layers]
    raises AttributeError, and so does [reset_states], because the lookup
    of [net] on the instance fails: no attribute, parameter, buffer or
    sub-module has that name. *)
Theorem SNN_spiking_layers_raises (batch_size : Z) (depth : nat) :
  2 ≤ depth →
  let self := SNN___init__ batch_size in
  getattr (pred depth) self "net" = Raise (AttributeError "net") ∧
  getattr depth self "spiking_layers" = Raise (AttributeError "spiking_layers") ∧
  spiking_layers depth self = Raise (AttributeError "spiking_layers") ∧
  reset_states depth self = Raise (AttributeError "spiking_layers").
Proof.
  intros Hdepth self. destruct depth as [|[|depth]]; [lia..|].
  assert (Hget : getattr (S (S depth)) self "spiking_layers"
                 = Raise (AttributeError "spiking_layers")).
  { apply getattr_spiking_layers; [apply SNN_has_no_net|..];
      vm_compute; reflexivity. }
  split_and!.
  - apply getattr_net, SNN_has_no_net.
  - done.
  - unfold spiking_layers. by rewrite Hget.
  - unfold reset_states, spiking_layers. by rewrite Hget.
Qed.

(** The instance built by the tutorial, with the usual recursion limit. *)
Lemma SNN_spiking_layers_raises_witness :
  2 ≤ 1000 ∧
  spiking_layers 1000 (SNN___init__ 5) = Raise (AttributeError "spiking_layers") ∧
  reset_states 1000 (SNN___init__ 5) = Raise (AttributeError "spiking_layers").
Proof.
  assert (H : 2 ≤ 1000) by lia. split; [exact H|].
  destruct (SNN_spiking_layers_raises 5 1000 H) as (_ & _ & H1 & H2).
  split; assumption.
Defined.

End snn_class.

(** ** The CI workflow *)

Section ci.
Import CI.

Lemma run_steps_prefix ok e ss :
  (run_steps ok e ss).1 `prefix_of` ((λ s, render e (step_name s)) <$> ss).
Proof.
  induction ss as [|s ss IH]; simpl; [done|].
  destruct (ok s).
  - destruct (run_steps ok e ss) as [names r]. simpl in *. by apply prefix_cons.
  - simpl. apply prefix_cons, prefix_nil.
Qed.

Lemma run_steps_passed ok e ss :
  (run_steps ok e ss).2 = true ↔ Forall (λ s, ok s = true) ss.
Proof.
  induction ss as [|s ss IH]; simpl; [by split; [constructor|]|].
  destruct (ok s) eqn:Hs.
  - destruct (run_steps ok e ss) as [names r]. simpl in *.
    rewrite IH. split; [by constructor|]. by inversion 1.
  - simpl. split; [done|]. inversion 1; congruence.
Qed.

(** A step is started only when all steps before it have succeeded. *)
Lemma run_steps_started ok e ss i name :
  (run_steps ok e ss).1 !! i = Some name →
  Forall (λ s, ok s = true) (take i ss).
Proof.
  revert i. induction ss as [|s ss IH]; intros i; simpl.
  - by rewrite take_nil.
  - destruct i as [|i]; [constructor|].
    destruct (ok s) eqn:Hs; [|done].
    destruct (run_steps ok e ss) as [names r]. simpl in *.
    intros H. constructor; [done|]. by apply IH.
Qed.

Lemma run_steps_reaches ok e ss i s :
  ss !! i = Some s → Forall (λ s, ok s = true) (take i ss) →
  (run_steps ok e ss).1 !! i = Some (render e (step_name s)).
Proof.
  revert i. induction ss as [|s' ss IH]; intros i; [done|].
  destruct i as [|i]; simpl.
  - intros [= ->] _. destruct (ok s); [|done].
    by destruct (run_steps ok e ss).
  - intros Hs [Hs' Hall]%Forall_cons. rewrite Hs'.
    specialize (IH i Hs Hall). by destruct (run_steps ok e ss).
Qed.

Lemma job_status_Success runs :
  job_status runs = Success ↔ Forall (λ r, passed r = true) runs.
Proof.
  unfold job_status. induction runs as [|r runs IH]; simpl.
  - split; [constructor|done].
  - destruct (passed r) eqn:Hr; simpl.
    + rewrite IH. split; [by constructor|]. by inversion 1.
    + split; [done|]. inversion 1; congruence.
Qed.


(** The run of the workflow, job by job. *)
Lemma run_workflow_unfold ok :
  let r1 := run_job ok multitest in
  let r2 := run_job ok documentation in
  let r3 := run_job ok build_and_publish in
  run_workflow ok =
  [ JobRun "multitest" (job_status r1) r1;
    if decide (job_status r1 = Success)
    then JobRun "documentation" (job_status r2) r2
    else JobRun "documentation" Skipped [];
    if decide (job_status r1 = Success ∧ job_status r2 = Success)
    then JobRun "build-and-publish" (job_status r3) r3
    else JobRun "build-and-publish" Skipped [] ].
Proof.
  intros r1 r2 r3. unfold run_workflow, workflow.
  cbn [run_jobs needs multitest documentation build_and_publish job_id].
  rewrite decide_True by constructor. fold r1. f_equal.
  destruct (decide (job_status r1 = Success)) as [H1|H1].
  - rewrite decide_True
      by (repeat constructor; rewrite H1; apply lookup_insert_eq).
    fold r2. f_equal.
    destruct (decide (job_status r2 = Success)) as [H2|H2].
    + rewrite decide_True
        by (repeat constructor; rewrite H2; apply lookup_insert_eq).
      by rewrite decide_True.
    + rewrite decide_False.
      { rewrite decide_False by (by intros [_ ?]). done. }
      intros [Hl _]%Forall_cons. rewrite lookup_insert_eq in Hl. congruence.
  - rewrite decide_False.
    2:{ intros [Hl _]%Forall_cons. rewrite lookup_insert_eq in Hl. congruence. }
    f_equal. rewrite decide_False.
    2:{ intros [Hl _]%Forall_cons. rewrite lookup_insert_eq in Hl. congruence. }
    rewrite decide_False by (by intros [? _]). done.
Qed.

Lemma expand_multitest e :
  e ∈ expand (matrix multitest) ↔
  ∃ os py torch,
    e = [("os", os); ("python-version", py); ("torch-version", torch)] ∧
    os ∈ ["ubuntu-latest"; "windows-latest"] ∧
    py ∈ ["3.7"; "3.9"] ∧ torch ∈ ["1.8.0"; "1.12.0"].
Proof.
  change (expand (matrix multitest)) with
    [ [("os", "ubuntu-latest"); ("python-version", "3.7"); ("torch-version", "1.8.0")];
      [("os", "ubuntu-latest"); ("python-version", "3.7"); ("torch-version", "1.12.0")];
      [("os", "ubuntu-latest"); ("python-version", "3.9"); ("torch-version", "1.8.0")];
      [("os", "ubuntu-latest"); ("python-version", "3.9"); ("torch-version", "1.12.0")];
      [("os", "windows-latest"); ("python-version", "3.7"); ("torch-version", "1.8.0")];
      [("os", "windows-latest"); ("python-version", "3.7"); ("torch-version", "1.12.0")];
      [("os", "windows-latest"); ("python-version", "3.9"); ("torch-version", "1.8.0")];
      [("os", "windows-latest"); ("python-version", "3.9"); ("torch-version", "1.12.0")] ].
  repeat setoid_rewrite elem_of_cons. repeat setoid_rewrite elem_of_nil.
  split.
  - intros H. repeat destruct H as [->|H]; [..|done]; eexists _, _, _; eauto 10.
  - intros (os & py & torch & -> & Hos & Hpy & Ht).
    destruct Hos as [->|[->|[]]], Hpy as [->|[->|[]]], Ht as [->|[->|[]]]; eauto 10.
Qed.





End ci.


Section scripts.
Import Notebook.

Lemma performs_ret {A} (x : A) E h : performs (ret x) E h x [] E h.
Proof. intros tr. unfold ret. by rewrite app_nil_r. Qed.

Lemma performs_bind {A B} (s : script A) (k : A → script B)
    E h v evs E1 h1 w evs' E2 h2 :
  performs s E h v evs E1 h1 →
  performs (k v) E1 h1 w evs' E2 h2 →
  performs (bind s k) E h w (evs ++ evs') E2 h2.
Proof.
  intros Hs Hk tr. unfold bind. rewrite Hs, Hk. by rewrite app_assoc.
Qed.

Lemma performs_emit e E h : performs (emit e) E h tt [e] E h.
Proof. done. Qed.

Lemma performs_assign x o E h : performs (assign x o) E h tt [] (<[x:=o]> E) h.
Proof. intros tr. unfold assign. simpl. by rewrite app_nil_r. Qed.

Lemma performs_var x o E h : E !! x = Some o → performs (var x) E h o [] E h.
Proof. intros Hx tr. unfold var. simpl. by rewrite Hx, app_nil_r. Qed.

Lemma performs_raise_unless E h : performs (raise_unless true) E h tt [] E h.
Proof. intros tr. unfold raise_unless. by rewrite app_nil_r. Qed.

Lemma performs_from_model src E h :
  performs (from_model src) E h (Converted h) [EvFromModel src h] E (S h).
Proof. done. Qed.

Lemma performs_for n body evs E h :
  performs body E h tt evs E h →
  performs (for_ n body) E h tt (mjoin (replicate n evs)) E h.
Proof.
  intros Hb. induction n as [|n IH]; simpl.
  - apply performs_ret.
  - eapply performs_bind; [exact Hb|exact IH].
Qed.

Lemma performs_var_emit x o (f : obj → event) E h :
  E !! x = Some o →
  performs (bind (var x) (λ v, emit (f v))) E h tt [f o] E h.
Proof.
  intros Hx. change [f o] with ([] ++ [f o]).
  eapply performs_bind; [by apply performs_var|apply performs_emit].
Qed.

Lemma performs_raise_unless_emit e E h :
  performs (bind (raise_unless true) (λ _, emit e)) E h tt [e] E h.
Proof.
  change [e] with ([] ++ [e]).
  eapply performs_bind; [apply performs_raise_unless|apply performs_emit].
Qed.

Lemma performs_run t n_train n_test n_spike evs E' h' :
  performs (script_of t n_train n_test n_spike) ∅ 0 tt evs E' h' →
  run t n_train n_test n_spike = Some evs.
Proof. intros H. unfold run. by rewrite H. Qed.

(** *** The operations of each tutorial *)

Lemma batch_sizes_pos n size : 0 < n → 0 < length (WT.batch_sizes n size).
Proof.
  intros Hn. unfold WT.batch_sizes. rewrite length_app, length_replicate.
  case_decide as Hmod; simpl; [|lia].
  pose proof (Nat.div_mod_eq n size) as Hdm. rewrite Hmod in Hdm.
  destruct (n / size); lia.
Qed.

(** The batches of the spiking test loader that cell 9 reads are full
    when the test set holds 300 images or a multiple of 10. *)
Lemma batch_sizes_full n :
  300 ≤ n ∨ n mod 10 = 0 →
  Forall (λ b, b = WT.test_batch_size) (take 30 (WT.batch_sizes n 10)) ∧
  length (WT.batch_sizes n 10) `min` 30 = (n / 10) `min` 30.
Proof.
  intros Hn. unfold WT.batch_sizes.
  destruct (decide (n mod 10 = 0)) as [Hmod|Hmod].
  - rewrite app_nil_r, length_replicate. split; [|done].
    apply Forall_take, Forall_replicate. done.
  - destruct Hn as [Hn|Hn]; [|done].
    assert (30 ≤ n / 10) by (apply Nat.div_le_lower_bound; lia).
    rewrite take_app_le by (rewrite length_replicate; lia).
    rewrite length_app, length_replicate. split; [|cbn [length]; lia].
    apply Forall_take, Forall_replicate. done.
Qed.


Lemma WT_spike_loop m batches len E h :
  E !! "sinabs_model" = Some m → len < 30 →
  Forall (λ b, b = WT.test_batch_size) (take (30 - len) batches) →
  performs (WT.spike_loop batches len) E h tt
           (replicate (length batches `min` (30 - len)) (EvForward m)) E h.
Proof.
  intros Hm. revert len. induction batches as [|b batches IH]; intros len Hlen Hfull.
  - apply performs_ret.
  - replace (30 - len) with (S (29 - len)) in Hfull by lia.
    rewrite firstn_cons in Hfull. apply Forall_cons in Hfull as [-> Hfull].
    cbn [WT.spike_loop]. rewrite bool_decide_eq_true_2 by done.
    unfold WT.test_batch_size. case_decide.
    + replace (length (10 :: batches) `min` (30 - len)) with 1 by (cbn [length]; lia).
      change (replicate 1 (EvForward m)) with ([] ++ [EvForward m] ++ [] ++ []).
      eapply performs_bind; [by apply performs_var|].
      eapply performs_bind; [apply performs_emit|].
      eapply performs_bind; [apply performs_raise_unless|apply performs_ret].
    + replace (length (10 :: batches) `min` (30 - len))
        with (S (length batches `min` (30 - S len))) by (cbn [length]; lia).
      change (replicate (S ?n) ?x) with ([] ++ [x] ++ [] ++ replicate n x).
      eapply performs_bind; [by apply performs_var|].
      eapply performs_bind; [apply performs_emit|].
      eapply performs_bind; [apply performs_raise_unless|].
      apply IH; [lia|]. by replace (30 - S len) with (29 - len) by lia.
Qed.


Lemma LN_snn_loop net batches i n_test E h :
  performs (LN.snn_loop net batches i n_test) E h tt
    (mjoin (replicate (batches `min` (S n_test - i))
                      [EvResetStates net; EvForward net])) E h.
Proof.
  revert i. induction batches as [|batches IH]; intros i.
  - apply performs_ret.
  - cbn [LN.snn_loop]. case_decide.
    + replace (S n_test - i) with 0 by lia. rewrite Nat.min_0_r. apply performs_ret.
    + replace (S batches `min` (S n_test - i))
        with (S (batches `min` (S n_test - S i))) by lia.
      change (mjoin (replicate (S ?n) ?l)) with (l ++ mjoin (replicate n l)).
      change ([?a; ?b] ++ ?l) with ([a] ++ [b] ++ l).
      eapply performs_bind; [apply performs_emit|].
      eapply performs_bind; [apply performs_emit|].
      apply IH.
Qed.

Lemma run_WeightTransfer n_train n_samples :
  11 ≤ n_samples → 300 ≤ n_samples ∨ n_samples mod 10 = 0 →
  WT.run n_train n_samples
  = Some (WT_trace n_train (length (WT.batch_sizes n_samples WT.batch_size))
                   (n_samples / 10)).
Proof.
  intros Hsamples Hfull.
  pose proof (batch_sizes_pos n_samples WT.batch_size ltac:(lia)) as Htest.
  pose proof (batch_sizes_pos n_samples WT.test_batch_size ltac:(lia)) as Hspike.
  destruct (batch_sizes_full n_samples Hfull) as [Hten Hmin].
  set (E1 := <["ann" := Ann "ann"]> (∅ : gmap string obj)).
  set (E2 := <["sinabs_model" := Converted 0]> E1).
  assert (HE1 : E1 !! "ann" = Some (Ann "ann")) by apply lookup_insert_eq.
  assert (HE2 : E2 !! "sinabs_model" = Some (Converted 0)) by apply lookup_insert_eq.
  assert (∃ evs, WT.run n_train n_samples = Some evs
                 ∧ evs = WT_trace n_train
                           (length (WT.batch_sizes n_samples WT.batch_size))
                           (n_samples / 10)) as (evs & -> & ->);
    [|done].
  eexists. split.
  - assert (∀ evs E' h',
              performs (WT.notebook n_train n_samples) ∅ 0 tt evs E' h' →
              WT.run n_train n_samples = Some evs) as Hrun.
    { intros evs E' h' H. unfold WT.run. by rewrite H. }
    eapply (Hrun _ E2 1). unfold WT.notebook.
    eapply (performs_bind _ _ _ _ _ _ E1 0).
    { eapply performs_bind; [apply performs_emit|apply performs_assign]. }
    eapply (performs_bind _ _ _ _ _ _ E1 0).
    { apply performs_for, performs_for. by apply (performs_var_emit "ann"). }
    eapply (performs_bind _ _ _ _ _ _ E1 0).
    { eapply performs_bind;
        [apply performs_for; by apply (performs_var_emit "ann")|].
      rewrite bool_decide_eq_true_2 by done. apply performs_raise_unless_emit. }
    eapply (performs_bind _ _ _ _ _ _ E2 1).
    { eapply performs_bind; [by apply performs_var|].
      eapply performs_bind; [apply performs_from_model|apply performs_assign]. }
    eapply (performs_bind _ _ _ _ _ _ E2 1).
    { eapply performs_bind;
        [apply (WT_spike_loop (Converted 0)); [done|lia|by rewrite Nat.sub_0_r]|].
      rewrite bool_decide_eq_true_2 by done. apply performs_raise_unless_emit. }
    unfold WT.visualise. rewrite bool_decide_eq_true_2 by lia.
    eapply performs_bind; [apply performs_raise_unless|].
    eapply performs_bind; [apply performs_emit|].
    eapply performs_bind; [by apply performs_var|].
    eapply performs_bind; [apply performs_emit|apply performs_emit].
  - unfold WT_trace. rewrite Nat.sub_0_r. unfold WT.test_batch_size. rewrite Hmin.
    repeat (rewrite <- ?app_assoc; simpl). reflexivity.
Qed.

Lemma run_LeNet5 n_train n_test n_spike :
  0 < n_test →
  run LeNet5 n_train n_test n_spike = Some (LN_trace n_train n_test n_spike).
Proof.
  intros Htest.
  set (E1 := <["classifier" := Ann "classifier"]> (∅ : gmap string obj)).
  assert (HE1 : E1 !! "classifier" = Some (Ann "classifier"))
    by apply lookup_insert_eq.
  assert (∃ evs, run LeNet5 n_train n_test n_spike = Some evs
                 ∧ evs = LN_trace n_train n_test n_spike) as (evs & -> & ->);
    [|done].
  eexists. split.
  - eapply (performs_run _ _ _ _ _ E1 1). unfold script_of, LN.notebook.
    eapply performs_bind; [apply performs_emit|].
    eapply performs_bind; [apply performs_assign|].
    eapply (performs_bind _ _ _ _ _ _ E1 0).
    { eapply performs_bind; [by apply performs_var|].
      apply performs_for, performs_for, performs_emit. }
    eapply (performs_bind _ _ _ _ _ _ E1 0).
    { eapply performs_bind; [by apply performs_var|].
      unfold LN.test. eapply performs_bind; [apply performs_emit|].
      eapply performs_bind; [apply performs_for, performs_emit|].
      rewrite bool_decide_eq_true_2 by done. apply performs_raise_unless_emit. }
    eapply performs_bind; [by apply performs_var|].
    unfold LN.snn_test.
    eapply performs_bind; [apply performs_from_model|].
    eapply performs_bind; [apply performs_emit|].
    eapply performs_bind; [apply LN_snn_loop|].
    rewrite bool_decide_eq_true_2 by lia. apply performs_raise_unless_emit.
  - unfold LN_trace. rewrite Nat.sub_0_r.
    repeat (rewrite <- ?app_assoc; simpl). reflexivity.
Qed.

Lemma run_SynopsTutorial n_train n_test n_spike :
  run SynopsTutorial n_train n_test n_spike = Some SY_trace.
Proof. vm_compute. reflexivity. Qed.

(** *** Phases *)






Lemma Forall_join_replicate {A} (P : A → Prop) n (l : list A) :
  Forall P l → Forall P (mjoin (replicate n l)).
Proof.
  intros Hl. induction n as [|n IH]; simpl; [constructor|].
  by apply Forall_app.
Qed.





(** *** Runs with one conversion *)

Lemma lookup_middle {A} (pre post : list A) c i e :
  (pre ++ c :: post) !! i = Some e →
  (i < length pre ∧ pre !! i = Some e) ∨
  (i = length pre ∧ e = c) ∨
  (length pre < i ∧ post !! (i - S (length pre)) = Some e).
Proof.
  rewrite lookup_app_Some. intros [H|[Hge H]].
  - left. split; [by eapply lookup_lt_Some|done].
  - destruct (i - length pre) as [|k] eqn:Hk; simpl in H.
    + right. left. split; [lia|congruence].
    + right. right. split; [lia|]. by replace (i - S (length pre)) with k by lia.
Qed.

Lemma remove_dups_replicate (x n : nat) : remove_dups (replicate (S n) x) = [x].
Proof.
  induction n as [|n IH]; [done|].
  change (replicate (S (S n)) x) with (x :: replicate (S n) x).
  cbn [remove_dups].
  destruct (decide_rel elem_of x (replicate (S n) x)) as [_|Hin]; [exact IH|].
  destruct Hin. apply list_elem_of_here.
Qed.

Section converts_once.
Context (tr : list event) (src : obj) (h : nat).
Context (Hconv : converts_once tr src h).

Lemma conversion_position i e :
  tr !! i = Some e → is_conversion e = true →
  ∃ pre post, tr = pre ++ EvFromModel src h :: post ∧ i = length pre ∧
    e = EvFromModel src h ∧
    Forall before_conversion pre ∧ Forall (after_conversion h) post.
Proof.
  destruct Hconv as (pre & post & -> & Hpre & Hpost).
  intros [[_ Hi]|[[-> ->]|[_ Hi]]]%lookup_middle He.
  - eapply Forall_lookup_1 in Hpre as [Hc _]; [|done]. congruence.
  - by exists pre, post.
  - eapply Forall_lookup_1 in Hpost as [Hc _]; [|done]. congruence.
Qed.


Lemma converts_once_spiking : spiking_after_conversion tr.
Proof.
  destruct Hconv as (pre & post & -> & Hpre & Hpost).
  intros j e o [[_ Hj]|[[_ ->]|[Hlt Hj]]]%lookup_middle Ho.
  - eapply Forall_lookup_1 in Hpre as [_ Hs]; [|done]. congruence.
  - done.
  - eapply Forall_lookup_1 in Hpost as (_ & _ & Hs); [|done].
    exists (length pre), src, h. split; [done|]. split; [|by apply Hs].
    by rewrite lookup_app_r, Nat.sub_diag by lia.
Qed.

Lemma converts_once_converted : converted_after_conversion tr.
Proof.
  intros j e h' Hj Ho.
  destruct (converts_once_spiking j e _ Hj Ho) as (i & src' & h'' & ? & ? & [= ->]).
  by exists i, src'.
Qed.

Lemma converts_once_through : through_returned_object tr.
Proof.
  intros i j src' h' e o Hi Hij Hj Ho.
  destruct (conversion_position i _ Hi eq_refl)
    as (pre & post & -> & -> & [= -> ->] & Hpre & Hpost).
  apply lookup_middle in Hj as [[Hlt _]|[[-> _]|[_ Hj]]]; [lia|lia|].
  eapply Forall_lookup_1 in Hpost as (_ & _ & Hs); [|done]. by apply Hs.
Qed.

Lemma converts_once_conversions : conversions tr = [EvFromModel src h].
Proof.
  destruct Hconv as (pre & post & -> & Hpre & Hpost). unfold conversions.
  rewrite filter_app, filter_cons, decide_True by done.
  assert (filter (λ e, is_conversion e = true) pre = []) as ->.
  { clear -Hpre. induction Hpre as [|e l [He _] _ IH]; [done|].
    rewrite filter_cons, decide_False by congruence. done. }
  assert (filter (λ e, is_conversion e = true) post = []) as ->; [|done].
  clear -Hpost. induction Hpost as [|e l [He _] _ IH]; [done|].
  rewrite filter_cons, decide_False by congruence. done.
Qed.

Lemma converts_once_models : converted_models tr = [h].
Proof.
  destruct Hconv as (pre & post & -> & Hpre & Hpost). unfold converted_models.
  rewrite omap_app. csimpl.
  match goal with |- remove_dups (omap ?f pre ++ h :: omap ?f post) = _ =>
    assert (omap f pre = []) as ->;
    [|assert (∃ n, omap f post = replicate n h) as [n ->]]
  end.
  - clear -Hpre. induction Hpre as [|e l [He Hs] _ IH]; [done|]. csimpl.
    destruct e; simpl in *; try congruence; rewrite ?Hs; by rewrite ?IH.
  - clear -Hpost. induction Hpost as [|e l (He & _ & Hs) _ (n & IH)]; [by exists 0|].
    csimpl. rewrite IH. destruct e; simpl in *; try congruence;
      try (by exists n);
      (destruct o as [?|h'|?];
       [by exists n
       |specialize (Hs _ eq_refl) as [= ->]; by exists (S n)
       |by specialize (Hs _ eq_refl)]).
  - apply (remove_dups_replicate h n).
Qed.

End converts_once.

Lemma converts_once_WT n_train n_test n_spike :
  converts_once (WT_trace n_train n_test n_spike) (Ann "ann") 0.
Proof.
  eexists _, _. split; [reflexivity|]. split.
  - repeat (apply Forall_app; split);
      repeat first [apply Forall_join_replicate | apply Forall_replicate];
      by repeat constructor.
  - repeat (apply Forall_app; split);
      repeat first [apply Forall_join_replicate | apply Forall_replicate];
      repeat (apply Forall_cons; split; [|]); try apply Forall_nil_2;
      (split; [done|split; [done|by intros o [= <-]]]) || (split; [done|done]).
Qed.

Lemma converts_once_LN n_train n_test n_spike :
  converts_once (LN_trace n_train n_test n_spike) (Ann "classifier") 0.
Proof.
  eexists _, _. split; [reflexivity|]. split.
  - repeat (apply Forall_app; split);
      repeat first [apply Forall_join_replicate | apply Forall_replicate];
      by repeat constructor.
  - repeat (apply Forall_app; split);
      repeat first [apply Forall_join_replicate | apply Forall_replicate];
      repeat (apply Forall_cons; split; [|]); try apply Forall_nil_2;
      (split; [done|split; [done|by intros o [= <-]]]) || (split; [done|done]).
Qed.

(** *** Runs without conversion *)

Lemma never_converted tr :
  Forall (λ e, is_conversion e = false ∧ ∀ h, spiking_target e ≠ Some (Converted h)) tr →
  no_training_after_conversion tr ∧ converted_after_conversion tr ∧
  through_returned_object tr ∧ conversions tr = [] ∧ converted_models tr = [].
Proof.
  intros Hall. split_and!.
  - intros i j e1 e2 Hi _ He1 _.
    eapply Forall_lookup_1 in Hall as [Hc _]; [|done]. congruence.
  - intros j e h Hj Ho.
    eapply Forall_lookup_1 in Hall as [_ Hs]; [|done]. by destruct (Hs h).
  - intros i j src h e o Hi _ _ _.
    eapply Forall_lookup_1 in Hall as [Hc _]; [|done]. done.
  - unfold conversions. induction Hall as [|e l [He _] _ IH]; [done|].
    rewrite filter_cons, decide_False by congruence. done.
  - unfold converted_models.
    match goal with |- remove_dups (omap ?f tr) = _ =>
      assert (omap f tr = []) as ->; [|done] end.
    induction Hall as [|e l [He Hs] _ IH]; [done|]. csimpl. rewrite IH.
    destruct e as [| | | | | | |]; simpl in *; try congruence;
      destruct o as [?|h|?]; try done; by destruct (Hs h).
Qed.

Lemma never_converted_SY :
  Forall (λ e, is_conversion e = false ∧ ∀ h, spiking_target e ≠ Some (Converted h))
         SY_trace.
Proof. repeat (apply Forall_cons; split; [by split|]). apply Forall_nil_2. Qed.

End scripts.




(** C9, as amended: the weight-transfer tutorial (in a run that reaches
    its end) and the LeNet tutorial each call [from_model] exactly once,
    on the trained network; exactly one converted network occurs in the
    run, every spiking network that is run is that one, and it is run
    only after the call that returns it. *)
Theorem single_conversion (n_train n_samples n_test n_spike : nat) :
  11 ≤ n_samples → 300 ≤ n_samples ∨ n_samples mod 10 = 0 → 0 < n_test →
  (∃ tr, Notebook.WT.run n_train n_samples = Some tr ∧
     Notebook.conversions tr = [Notebook.EvFromModel (Notebook.Ann "ann") 0] ∧
     Notebook.converted_models tr = [0] ∧
     Notebook.spiking_after_conversion tr ∧
     Notebook.through_returned_object tr ∧
     Notebook.converted_after_conversion tr) ∧
  (∃ tr, Notebook.run Notebook.LeNet5 n_train n_test n_spike = Some tr ∧
     Notebook.conversions tr = [Notebook.EvFromModel (Notebook.Ann "classifier") 0] ∧
     Notebook.converted_models tr = [0] ∧
     Notebook.spiking_after_conversion tr ∧
     Notebook.through_returned_object tr ∧
     Notebook.converted_after_conversion tr).
Proof.
  intros Hsamples Hfull Htest. split.
  - pose proof (converts_once_WT n_train
                  (length (Notebook.WT.batch_sizes n_samples Notebook.WT.batch_size))
                  (n_samples / 10)) as Hc.
    eexists. split; [by apply run_WeightTransfer|].
    rewrite (converts_once_conversions _ _ _ Hc), (converts_once_models _ _ _ Hc).
    split_and!; [done|done| | |].
    + by eapply converts_once_spiking.
    + by eapply converts_once_through.
    + by eapply converts_once_converted.
  - pose proof (converts_once_LN n_train n_test n_spike) as Hc.
    eexists. split; [by apply run_LeNet5|].
    rewrite (converts_once_conversions _ _ _ Hc), (converts_once_models _ _ _ Hc).
    split_and!; [done|done| | |].
    + by eapply converts_once_spiking.
    + by eapply converts_once_through.
    + by eapply converts_once_converted.
Qed.

(** A training set of 3 batches and a test set of 320 images, which the
    LeNet tutorial reads in one batch and as 320 single images. *)
Lemma single_conversion_witness :
  (∃ tr, Notebook.WT.run 3 320 = Some tr ∧
     Notebook.converted_models tr = [0] ∧
     Notebook.through_returned_object tr) ∧
  (∃ tr, Notebook.run Notebook.LeNet5 3 1 320 = Some tr ∧
     Notebook.converted_models tr = [0] ∧
     Notebook.through_returned_object tr).
Proof.
  assert (H1 : 11 ≤ 320) by lia.
  assert (H2 : 300 ≤ 320 ∨ 320 mod 10 = 0) by (left; lia).
  assert (H3 : 0 < 1) by lia.
  destruct (single_conversion 3 320 1 320 H1 H2 H3)
    as [(tr1 & Hrun1 & _ & Hm1 & _ & Ht1 & _) (tr2 & Hrun2 & _ & Hm2 & _ & Ht2 & _)].
  split; [exists tr1|exists tr2]; split_and!; assumption.
Defined.

(** C9 as stated fails for the synops tutorial: it never calls
    [from_model], no converted network occurs in its run, and the spiking
    network it runs is the one built by hand in the notebook, which no
    call of [from_model] returned. *)
Lemma synops_without_conversion :
  ∃ tr j, Notebook.run Notebook.SynopsTutorial 1 1 1 = Some tr ∧
    Notebook.conversions tr = [] ∧ Notebook.converted_models tr = [] ∧
    tr !! j = Some (Notebook.EvForward (Notebook.HandBuilt "snn")) ∧
    Notebook.spiking_target (Notebook.EvForward (Notebook.HandBuilt "snn"))
    = Some (Notebook.HandBuilt "snn") ∧
    ¬ Notebook.spiking_after_conversion tr.
Proof.
  pose proof (never_converted _ never_converted_SY) as (_ & _ & _ & H4 & H5).
  exists Notebook.SY_trace, 5. rewrite run_SynopsTutorial.
  split_and!; [done..|].
  intros Hs. destruct (Hs 5 _ _ eq_refl eq_refl) as (i & src & h & _ & _ & Heq).
  discriminate Heq.
Qed.

(** * Further properties of the code *)

(** ** Tensors are determined by their sizes and their elements *)

Lemma offset_indices s p ix : indices s !! p = Some ix → offset s ix = p.
Proof.
  revert p ix. induction s as [|n s IH]; intros p ix; simpl.
  - intros [-> <-]%list_lookup_singleton_Some. reflexivity.
  - intros (j & l & i' & Hl & Hix & ->)%(join_lookup_Some_same_length (numel s)).
    + rewrite list_lookup_fmap in Hl.
      destruct (seq 0 n !! j) as [j'|] eqn:Hj; [|done]. simplify_eq/=.
      apply lookup_seq in Hj as [-> _].
      rewrite list_lookup_fmap in Hix.
      destruct (indices s !! i') as [ix'|] eqn:Hi'; [|done]. simplify_eq/=.
      change (offset (n :: s) (j :: ix')) with (j * numel s + offset s ix').
      by rewrite (IH _ _ Hi').
    + apply Forall_fmap, Forall_forall. intros x _. simpl.
      by rewrite length_fmap, length_indices.
Qed.

Lemma tensor_ext {A} (t1 t2 : tensor A) :
  wf t1 → wf t2 → shape t1 = shape t2 →
  (∀ ix, in_range (shape t1) ix → get t1 ix = get t2 ix) →
  t1 = t2.
Proof.
  destruct t1 as [s l1], t2 as [s2 l2]. unfold wf, get. simpl.
  intros Hwf1 Hwf2 <- Hget. f_equal. apply list_eq. intros p.
  destruct (decide (p < numel s)) as [Hp|Hp].
  - destruct (lookup_lt_is_Some_2 (indices s) p) as [ix Hix];
      [by rewrite length_indices|].
    assert (in_range s ix) as Hin
      by (eapply in_range_indices, list_elem_of_lookup_2, Hix).
    specialize (Hget ix Hin). rewrite !decide_True in Hget by done.
    by rewrite (offset_indices _ _ _ Hix) in Hget.
  - rewrite !lookup_ge_None_2 by lia. done.
Qed.

(** ** More on [tensor_tile] *)

Section tensor_tile_more.
Context {A : Type}.
Implicit Types (a r : tensor A).

Lemma tensor_tile_Some_size a d n r :
  tensor_tile a d n = Some r → ∃ m, size a d = Some m ∧ 1 ≤ m.
Proof.
  unfold tensor_tile. intros H.
  apply bind_Some in H as (m & Hm & H). exists m. split; [done|].
  apply bind_Some in H as (idx & _ & H).
  apply bind_Some in H as (a' & _ & H).
  apply bind_Some in H as (order & Ho & _).
  destruct m; [done|lia].
Qed.

(** The element of the tiled tensor at an index is the element of the
    original at the index with its coordinate along [d] divided by [n]. *)
Lemma tiled_get a d n r k ix c :
  tiled a d n r → wrap_index (Tensor.dim a) d = Some k →
  in_range (shape r) ix → ix !! k = Some c →
  get r ix = get a (<[k:=c / n]> ix).
Proof.
  intros (k' & m & Hk' & Hm & Hs & _ & _ & Hget) Hk Hix Hc. simplify_eq.
  destruct (in_range_lookup _ _ _ _ Hix Hc) as (z & Hz & Hcz).
  rewrite Hs, list_lookup_insert_eq in Hz by (by eapply lookup_lt_Some).
  simplify_eq.
  assert (0 < n) by (destruct n; lia).
  apply (Hget (c / n) (c mod n)); [|by apply Nat.mod_upper_bound; lia|done|].
  - apply Nat.Div0.div_lt_upper_bound. lia.
  - rewrite Hc. f_equal. rewrite (Nat.div_mod_eq c n) at 1. lia.
Qed.

End tensor_tile_more.

(** X1: on a well-formed tensor, [tensor_tile] returns a tensor exactly
    when [dim] is a valid dimension of the tensor whose size is not 0,
    whatever [n_tile] is; otherwise it raises. *)
Theorem tensor_tile_succeeds_iff {A} (a : tensor A) (d : Z) (n : nat) :
  wf a → (is_Some (tensor_tile a d n) ↔ ∃ m, size a d = Some m ∧ 1 ≤ m).
Proof.
  intros Hwf. split.
  - intros [r Hr]. by eapply tensor_tile_Some_size.
  - intros (m & Hm & Hpos).
    destruct (tensor_tile_tiled a d n m Hwf Hm Hpos) as (r & -> & _). done.
Qed.

Lemma tensor_tile_succeeds_iff_witness :
  let a : tensor Z := Tensor [2; 3] [1; 2; 3; 4; 5; 6]%Z in
  wf a ∧ (is_Some (tensor_tile a (-1) 4) ↔ ∃ m, size a (-1) = Some m ∧ 1 ≤ m).
Proof.
  intros a. assert (Hwf : wf a) by reflexivity. split; [exact Hwf|].
  exact (tensor_tile_succeeds_iff a (-1) 4 Hwf).
Defined.

(** X2: tiling once changes nothing: on a well-formed tensor and a valid
    dimension of non-zero size, [tensor_tile a dim 1] is [a]. *)
Theorem tensor_tile_once {A} (a : tensor A) (d : Z) (m : nat) :
  wf a → size a d = Some m → 1 ≤ m → tensor_tile a d 1 = Some a.
Proof.
  intros Hwf Hm Hpos.
  destruct (tensor_tile_tiled a d 1 m Hwf Hm Hpos) as (r & -> & Ht).
  f_equal. apply size_Some in Hm as (k & Hk & Hm).
  pose proof Ht as (k' & m' & Hk' & Hm' & Hs & _ & Hwfr & _).
  rewrite Hk in Hk'. injection Hk' as <-.
  rewrite Hm in Hm'. injection Hm' as <-.
  rewrite Nat.mul_1_r, list_insert_id in Hs by done.
  apply tensor_ext; [done..|]. intros ix Hix.
  destruct (lookup_lt_is_Some_2 ix k) as [c Hc].
  { rewrite (in_range_length _ _ Hix), Hs. by eapply lookup_lt_Some. }
  rewrite (tiled_get a d 1 r k ix c) by done.
  by rewrite Nat.div_1_r, list_insert_id.
Qed.

Lemma tensor_tile_once_witness :
  let a : tensor Z := Tensor [2; 3] [1; 2; 3; 4; 5; 6]%Z in
  wf a ∧ size a 0 = Some 2 ∧ 1 ≤ 2 ∧ tensor_tile a 0 1 = Some a.
Proof.
  intros a. assert (Hwf : wf a) by reflexivity.
  assert (Hs : size a 0 = Some 2) by reflexivity.
  assert (Hm : 1 ≤ 2) by lia.
  split_and!; [done..|]. exact (tensor_tile_once a 0 2 Hwf Hs Hm).
Defined.

(** X3: tiling [n1 >= 1] times and then [n2] times along the same
    dimension is tiling [n1 * n2] times, and both raise on the same
    inputs. *)
Theorem tensor_tile_twice {A} (a : tensor A) (d : Z) (n1 n2 : nat) :
  wf a → 1 ≤ n1 →
  tensor_tile a d n1 ≫= (λ r, tensor_tile r d n2) = tensor_tile a d (n1 * n2).
Proof.
  intros Hwf Hn1.
  destruct (tensor_tile a d n1) as [r1|] eqn:H1; simpl.
  - destruct (tensor_tile_Some_size _ _ _ _ H1) as (m & Hm & Hpos).
    destruct (tensor_tile_tiled a d n1 m Hwf Hm Hpos) as (r1' & H1' & Ht1).
    rewrite H1 in H1'. injection H1' as <-.
    destruct (tensor_tile_tiled a d (n1 * n2) m Hwf Hm Hpos) as (r & -> & Ht).
    apply size_Some in Hm as (k & Hk & Hm).
    pose proof Ht1 as (k1 & m1 & Hk1 & Hm1 & Hs1 & Hsize1 & Hwf1 & _).
    rewrite Hk in Hk1. injection Hk1 as <-.
    rewrite Hm in Hm1. injection Hm1 as <-.
    assert (Hdim1 : Tensor.dim r1 = Tensor.dim a)
      by (unfold Tensor.dim; by rewrite Hs1, length_insert).
    destruct (tensor_tile_tiled r1 d n2 (m * n1) Hwf1 Hsize1 ltac:(nia))
      as (r2 & -> & Ht2).
    f_equal.
    pose proof (lookup_lt_Some _ _ _ Hm) as Hklt.
    pose proof Ht2 as (k2 & m2 & Hk2 & Hm2 & Hs2 & _ & Hwf2 & _).
    rewrite Hdim1, Hk in Hk2. injection Hk2 as <-.
    rewrite Hs1, list_lookup_insert_eq in Hm2 by done. injection Hm2 as <-.
    rewrite Hs1, list_insert_insert_eq in Hs2.
    pose proof Ht as (k3 & m3 & Hk3 & Hm3 & Hs & _ & Hwfr & _).
    rewrite Hk in Hk3. injection Hk3 as <-.
    rewrite Hm in Hm3. injection Hm3 as <-.
    assert (Hshape : shape r2 = shape r)
      by (rewrite Hs2, Hs; f_equal; lia).
    apply tensor_ext; [done..|]. intros ix Hix.
    destruct (lookup_lt_is_Some_2 ix k) as [c Hc].
    { rewrite (in_range_length _ _ Hix), Hs2, length_insert. done. }
    rewrite (tiled_get r1 d n2 r2 k ix c) by (by rewrite ?Hdim1).
    destruct (in_range_lookup _ _ _ _ Hix Hc) as (z & Hz & Hcz).
    rewrite Hs2, list_lookup_insert_eq in Hz by done. injection Hz as <-.
    assert (0 < n2) by (destruct n2; lia).
    assert (Hin1 : in_range (shape r1) (<[k:=c / n2]> ix)).
    { rewrite Hs1. rewrite Hs2 in Hix.
      rewrite <- (list_insert_insert_eq (shape a) k (m * n1) (m * n1 * n2)).
      apply in_range_insert; [done|].
      apply Nat.Div0.div_lt_upper_bound. lia. }
    rewrite (tiled_get a d n1 r1 k _ (c / n2)); [|done..|].
    2:{ rewrite list_lookup_insert_eq; [done|].
        rewrite (in_range_length _ _ Hix), Hs2, length_insert. done. }
    rewrite (tiled_get a d (n1 * n2) r k ix c);
      [|done|done|by rewrite <- Hshape|done].
    rewrite list_insert_insert_eq. do 2 f_equal.
    rewrite Nat.Div0.div_div. f_equal. lia.
  - destruct (tensor_tile a d (n1 * n2)) as [r|] eqn:H2; [|done].
    destruct (tensor_tile_Some_size _ _ _ _ H2) as (m & Hm & Hpos).
    destruct (tensor_tile_tiled a d n1 m Hwf Hm Hpos) as (r1 & Hr1 & _).
    congruence.
Qed.

Lemma tensor_tile_twice_witness :
  let a : tensor Z := Tensor [2; 3] [1; 2; 3; 4; 5; 6]%Z in
  wf a ∧ 1 ≤ 2 ∧
  tensor_tile a 1 2 ≫= (λ r, tensor_tile r 1 3) = tensor_tile a 1 (2 * 3).
Proof.
  intros a. assert (Hwf : wf a) by reflexivity. assert (Hn : 1 ≤ 2) by lia.
  split_and!; [done..|]. exact (tensor_tile_twice a 1 2 3 Hwf Hn).
Defined.

(** ** More on [count_correct], [test] and [snn_test] *)

(** The comparison of [count_correct] is a broadcast of the predictions,
    one per row, against the targets; the count is a whole number that
    does not exceed the number of compared pairs. *)
Lemma count_correct_Some (output : tensor Q) (target : tensor Z) (b c : nat) q :
  shape output = [b; c] → count_correct output target = Some q →
  ∃ s n, broadcast_shapes [b] (shape target) = Some s ∧
         q = inject_Z (Z.of_nat n) ∧ n ≤ numel s.
Proof.
  intros Hso H. unfold count_correct in H.
  apply bind_Some in H as ([values predicted] & Hmax & H).
  apply bind_Some in H as (acc & Hacc & [= <-]).
  unfold max_dim, Tensor.dim in Hmax. rewrite Hso in Hmax.
  change (wrap_index (length [b; c]) 1) with (Some 1) in Hmax.
  cbn [mbind option_bind lookup list_lookup delete list_delete] in Hmax.
  case_decide; [done|].
  apply bind_Some in Hmax as (v & _ & Hmax).
  apply bind_Some in Hmax as (p & Hp & [= _ <-]).
  apply tabulate_Some in Hp as (Hsp & _ & _).
  unfold eq, broadcast_map2 in Hacc. rewrite Hsp in Hacc.
  apply bind_Some in Hacc as (s & Hs & Hacc).
  apply tabulate_Some in Hacc as (Hsa & Hwfa & _).
  exists s, (sum_bool acc). split_and!; [done..|].
  unfold sum_bool. unfold wf in Hwfa. rewrite <- Hsa, <- Hwfa.
  apply length_filter_le.
Qed.

(** X4: when the number of rows of [output] and the length of [target]
    differ and neither is 1, the comparison cannot be broadcast and
    [count_correct] raises. *)
Theorem count_correct_length_mismatch
    (output : tensor Q) (target : tensor Z) (b c b' : nat) :
  shape output = [b; c] → shape target = [b'] →
  b ≠ b' → b ≠ 1 → b' ≠ 1 →
  count_correct output target = None.
Proof.
  intros Hso Hst Hne Hb Hb'.
  destruct (count_correct output target) as [q|] eqn:H; [|done].
  destruct (count_correct_Some _ _ _ _ _ Hso H) as (s & n & Hs & _).
  rewrite Hst in Hs. unfold broadcast_shapes in Hs. simpl in Hs.
  rewrite !decide_False in Hs by done. done.
Qed.

Lemma count_correct_length_mismatch_witness :
  count_correct (Tensor [2; 2] [1; 0; 0; 1]%Q) (Tensor [3] [0; 1; 0]%Z) = None.
Proof.
  apply (count_correct_length_mismatch _ _ 2 2 3); [reflexivity..|lia|lia|lia].
Defined.

Section accuracy_more.
Context {Model Net : Type}.
Context (forward : Model → tensor Q → option (tensor Q)).
Context (from_model : Model → list nat → Q → Q → Q → Net).
Context (reset_states : Net → Net).
Context (spiking_model : Net → tensor Q → option (tensor Q * Net)).

Lemma test_loop_counts model loader n_correct n_test n_correct' n_test' k :
  LeNetEval.one_row_per_label forward model loader →
  test_loop forward model loader n_correct n_test = Some (n_correct', n_test') →
  (n_correct == inject_Z (Z.of_nat k))%Q →
  ∃ k', (n_correct' == inject_Z (Z.of_nat k'))%Q ∧
        k ≤ k' ∧ k' + n_test ≤ k + n_test'.
Proof.
  revert n_correct n_test k.
  induction loader as [|[imgs labels] loader IH]; intros n_correct n_test k Hrows; simpl.
  - intros [= <- <-] Hk. exists k. split; [done|lia].
  - intros H Hk.
    apply bind_Some in H as (outputs & Hout & H).
    apply bind_Some in H as (c & Hc & H).
    apply bind_Some in H as (n & Hn & H).
    destruct (Hrows imgs labels outputs) as (b & cols & Hso & Hsl);
      [apply list_elem_of_here|done|].
    destruct (count_correct_Some _ _ _ _ _ Hso Hc) as (s & m & Hs & -> & Hm).
    rewrite Hsl, broadcast_shapes_same in Hs. injection Hs as <-.
    unfold len in Hn. rewrite Hsl in Hn. injection Hn as <-.
    simpl in Hm.
    destruct (IH (n_correct + inject_Z (Z.of_nat m))%Q (n_test + b) (k + m))
      as (k' & Hk' & Hle1 & Hle2); [|done| |].
    + intros ? ? ? Hin. apply Hrows. by apply list_elem_of_further.
    + rewrite Hk, Nat2Z.inj_add, inject_Z_plus. reflexivity.
    + exists k'. split; [done|lia].
Qed.

(** X5: when the model returns one row of scores per label, the figure
    returned by [test] is [k / n * 100] for the number [n > 0] of labels
    of the loader and a whole number [k <= n] of correct predictions;
    so it lies between 0 and 100. *)
Theorem test_accuracy_range (model : Model) (loader : list batch) (acc : Q) :
  (∀ imgs labels outputs, (imgs, labels) ∈ loader →
     forward model imgs = Some outputs →
     ∃ b c, shape outputs = [b; c] ∧ shape labels = [b]) →
  test forward model loader = Some acc →
  ∃ k n, total_len loader = Some n ∧ 0 < n ∧ k ≤ n ∧
    (acc == inject_Z (Z.of_nat k) / inject_Z (Z.of_nat n) * 100)%Q ∧
    (0 <= acc <= 100)%Q.
Proof.
  intros Hrows H. unfold test in H.
  apply bind_Some in H as ([n_correct n] & Hloop & H).
  destruct (test_loop_total forward _ _ _ _ _ _ Hloop) as (n' & Hn' & Hn).
  simpl in Hn. subst n'.
  destruct (test_loop_counts _ _ _ _ _ _ 0 Hrows Hloop) as (k & Hk & _ & Hkn);
    [reflexivity|].
  unfold percentage in H. case_decide; [done|]. injection H as <-.
  assert (Hnpos : (0 < inject_Z (Z.of_nat n))%Q)
    by (rewrite <- (Zlt_Qlt 0); lia).
  assert (Hx : (0 <= inject_Z (Z.of_nat k) / inject_Z (Z.of_nat n) <= 1)%Q).
  { split.
    - apply Qle_shift_div_l; [done|]. rewrite Qmult_0_l.
      rewrite <- (Zle_Qle 0). lia.
    - apply Qle_shift_div_r; [done|]. rewrite Qmult_1_l.
      rewrite <- Zle_Qle. lia. }
  exists k, n. split_and!; [done|lia|lia|by rewrite Hk|rewrite Hk; lra..].
Qed.

Lemma snn_loop_all_right net n_dt n_test i loader n_correct :
  LeNetEval.always_right reset_states spiking_model n_dt loader →
  ∃ n_correct',
    snn_loop reset_states spiking_model net n_dt n_test i loader n_correct
    = Some n_correct' ∧
    (n_correct' ==
     n_correct + inject_Z (Z.of_nat (length loader `min` (S n_test - i))))%Q.
Proof.
  revert net i n_correct.
  induction loader as [|[imgs labels] loader IH]; intros net i n_correct Hall.
  - exists n_correct. split; [done|]. simpl. by rewrite Qplus_0_r.
  - cbn [snn_loop]. case_decide as Hi.
    + exists n_correct. split; [done|].
      replace (S n_test - i) with 0 by lia. rewrite Nat.min_0_r.
      simpl. by rewrite Qplus_0_r.
    + destruct (Hall net (imgs, labels)) as [net' Hstep];
        [apply list_elem_of_here|].
      unfold LeNetEval.snn_step in Hstep.
      apply bind_Some in Hstep as (frames & Hf & Hstep).
      apply bind_Some in Hstep as ([outputs net''] & Hsm & Hstep).
      apply bind_Some in Hstep as (total & Ht & Hstep).
      apply bind_Some in Hstep as (c & Hc & [= -> ->]).
      rewrite Hf. cbn [mbind option_bind]. rewrite Hsm. cbn [mbind option_bind].
      rewrite Ht. cbn [mbind option_bind]. rewrite Hc. cbn [mbind option_bind].
      destruct (IH net' (S i) (n_correct + 1)%Q) as (r & -> & Hr).
      { intros ? ? Hin. apply Hall. by apply list_elem_of_further. }
      exists r. split; [done|]. rewrite Hr.
      replace (S n_test - i) with (S (S n_test - S i)) by lia.
      cbn [length]. rewrite <- Nat.succ_min_distr.
      rewrite Nat2Z.inj_succ, <- Z.add_1_l, inject_Z_plus.
      change (inject_Z 1) with 1%Q. ring.
Qed.

(** X6: when every sample of the loader is classified correctly and
    [n_test >= 1], [snn_test] returns [min(N, n_test + 1) / n_test * 100]
    for a loader of [N] samples: it counts up to [n_test + 1] samples and
    divides by [n_test], so the figure is above 100 as soon as the loader
    holds more than [n_test] samples. *)
Theorem snn_test_all_right (model : Model) (n_dt n_test : nat) (loader : list batch) :
  1 ≤ n_test →
  (∀ net sample, sample ∈ loader →
     ∃ net', LeNetEval.snn_step reset_states spiking_model net n_dt sample
             = Some (1%Q, net')) →
  ∃ acc,
    snn_test from_model reset_states spiking_model model n_dt n_test loader
    = Some acc ∧
    (acc == inject_Z (Z.of_nat (length loader `min` S n_test))
            / inject_Z (Z.of_nat n_test) * 100)%Q ∧
    (n_test < length loader → (100 < acc)%Q).
Proof.
  intros Hn Hall. unfold snn_test.
  destruct (snn_loop_all_right
              (from_model model input_image_size 1%Q 1%Q (-1)%Q)
              n_dt n_test 0 loader 0%Q Hall) as (r & -> & Hr).
  cbn [mbind option_bind]. unfold percentage. rewrite decide_False by lia.
  rewrite Qplus_0_l, Nat.sub_0_r in Hr.
  eexists. split; [done|]. split; [by rewrite Hr|].
  intros Hlt. rewrite Hr, Nat.min_r by lia.
  assert (Hnpos : (0 < inject_Z (Z.of_nat n_test))%Q)
    by (rewrite <- (Zlt_Qlt 0); lia).
  assert (1 < inject_Z (Z.of_nat (S n_test)) / inject_Z (Z.of_nat n_test))%Q.
  { apply Qlt_shift_div_l; [done|]. rewrite Qmult_1_l.
    rewrite <- Zlt_Qlt. lia. }
  lra.
Qed.

(** X7: [snn_test] reads the first [n_test + 1] samples of the loader
    only: two loaders that agree on them give the same result. *)
Theorem snn_test_first_samples (model : Model) (n_dt n_test : nat)
    (loader1 loader2 : list batch) :
  take (S n_test) loader1 = take (S n_test) loader2 →
  snn_test from_model reset_states spiking_model model n_dt n_test loader1
  = snn_test from_model reset_states spiking_model model n_dt n_test loader2.
Proof.
  intros H.
  rewrite (snn_test_take from_model reset_states spiking_model model n_dt n_test loader1).
  rewrite (snn_test_take from_model reset_states spiking_model model n_dt n_test loader2).
  by rewrite H.
Qed.

End accuracy_more.

(** A model that returns the same two rows of scores for every batch. *)
Lemma test_accuracy_range_witness :
  let forward (_ : unit) (_ : tensor Q) := Some (Tensor [2; 3] [1; 5; 5; 0; 0; 0]%Q) in
  let loader : list batch := [(Tensor [2] [0; 0]%Q, Tensor [2] [1; 1]%Z)] in
  ∃ k n, total_len loader = Some n ∧ 0 < n ∧ k ≤ n ∧
    (100 # 2 == inject_Z (Z.of_nat k) / inject_Z (Z.of_nat n) * 100)%Q ∧
    (0 <= 100 # 2 <= 100)%Q.
Proof.
  intros forward loader.
  apply (test_accuracy_range forward tt loader (100 # 2)%Q).
  - intros imgs labels outputs Hin Hf.
    apply list_elem_of_singleton in Hin. injection Hin as -> ->.
    injection Hf as <-. by exists 2, 3.
  - reflexivity.
Defined.

(** The network that is always right, on three samples with [n_test = 2]:
    the figure is 150. *)
Lemma snn_test_all_right_witness :
  let loader := [sample_of_class 3; sample_of_class 5; sample_of_class 0] in
  ∃ acc,
    oracle_snn_test 2 2 loader = Some acc ∧
    (acc == inject_Z (Z.of_nat (length loader `min` 3)) / inject_Z 2 * 100)%Q ∧
    (2 < length loader → (100 < acc)%Q).
Proof.
  intros loader.
  apply (snn_test_all_right (Model:=unit) (λ _ _ _ _ _, tt) (λ net, net)
           oracle_network tt 2 2 loader); [lia|].
  intros [] sample Hin. exists tt.
  apply elem_of_cons in Hin as [->|Hin]; [by vm_compute|].
  apply elem_of_cons in Hin as [->|Hin]; [by vm_compute|].
  apply list_elem_of_singleton in Hin as ->. by vm_compute.
Defined.

Lemma snn_test_first_samples_witness :
  oracle_snn_test 2 1 [sample_of_class 3; sample_of_class 5; sample_of_class 0]
  = oracle_snn_test 2 1 [sample_of_class 3; sample_of_class 5; sample_of_class 7].
Proof.
  apply (snn_test_first_samples (Model:=unit) (λ _ _ _ _ _, tt) (λ net, net)
           oracle_network tt 2 1). reflexivity.
Defined.

(** ** More on [MNIST.__getitem__] *)

Section mnist_more.
Import WeightTransfer.

Lemma rand_generator g s :
  (rand g s).2 = Generator (samples g) (position g + numel s).
Proof. exact eq_refl. Qed.

(** X9: in spiking mode [__getitem__] takes exactly [T * 784] numbers
    from the random number generator, so the next call draws fresh ones;
    without [is_spiking] the generator is left untouched. *)
Theorem MNIST_getitem_draws (self : MNIST) (N : nat) (index : Z)
    (g g' : generator) (x : tensor Q) (target : Z) :
  wf_dataset self N →
  __getitem__ self index g = Some (x, target, g') →
  if is_spiking self
  then g' = Generator (samples g) (position g + time_window self * 784)
  else g' = g.
Proof.
  intros (Hs & Hwf & Hlen) H. unfold __getitem__ in H.
  destruct (getitem (data self) index) as [x0|] eqn:Hx0; [|done].
  cbn [mbind option_bind] in H.
  destruct (unsqueeze x0 0) as [x1|] eqn:Hx1; [|done].
  cbn [mbind option_bind] in H.
  destruct (wrap_index (length (targets self)) index) as [k|] eqn:Hk; [|done].
  cbn [mbind option_bind] in H.
  destruct (targets self !! k) as [t|]; [|done].
  cbn [mbind option_bind] in H.
  destruct (is_spiking self); [|by injection H as _ _ <-].
  rewrite Hlen in Hk.
  destruct (getitem_image self N [28; 28] index k Hs Hwf Hk) as (x1' & Hx1' & Hsx & _).
  rewrite Hx0 in Hx1'. cbn [mbind option_bind] in Hx1'.
  rewrite Hx1 in Hx1'. injection Hx1' as <-.
  pose proof (rand_generator g (time_window self :: shape (true_divide x1 255))) as Hg.
  destruct (rand g (time_window self :: shape (true_divide x1 255))) as [r g1].
  destruct (lt r (true_divide x1 255)); [|done]. injection H as _ _ <-.
  simpl in Hg. rewrite Hg. unfold true_divide, map. simpl. rewrite Hsx.
  reflexivity.
Qed.

Lemma MNIST_getitem_draws_witness :
  let self := mkMNIST (Tensor [1; 28; 28] (replicate 784 Byte.x80)) [7%Z] true 2 in
  let g := Generator (λ _, 1 # 2) 5 in
  ∃ x target g',
    __getitem__ self 0 g = Some (x, target, g') ∧
    g' = Generator (samples g) (5 + 2 * 784).
Proof.
  intros self g.
  assert (Hwf : wf_dataset self 1) by (repeat split; reflexivity).
  destruct (__getitem__ self 0 g) as [[[x target] g']|] eqn:H.
  - exists x, target, g'. split; [reflexivity|].
    exact (MNIST_getitem_draws self 1 0 g g' x target Hwf H).
  - exfalso. vm_compute in H. discriminate H.
Defined.

(** X10: with draws in the interval from 0 to 1 (1 excluded), a black
    pixel (gray level 0) gives no event at any time step and a white
    pixel (gray level 255) gives an event at every time step. *)
Theorem MNIST_black_and_white (self : MNIST) (N : nat) (index : Z) (k : nat)
    (g g' : generator) (raster : tensor Q) (target : Z) :
  wf_dataset self N → wrap_index N index = Some k → is_spiking self = true →
  (∀ i, (0 <= samples g i)%Q ∧ (samples g i < 1)%Q) →
  __getitem__ self index g = Some (raster, target, g') →
  ∀ t r c, t < time_window self → r < 28 → c < 28 →
    (get (data self) [k; r; c] = Some Byte.x00 → get raster [t; 0; r; c] = Some 0%Q) ∧
    (get (data self) [k; r; c] = Some Byte.xff → get raster [t; 0; r; c] = Some 1%Q).
Proof.
  intros (Hs & Hwf & Hlen) Hk Hspk Hu H t r c Ht Hr Hc.
  destruct (getitem_spiking self N [28; 28] index k g Hs Hwf Hlen Hk Hspk)
    as (raster' & target' & g'' & H' & _ & _ & _ & _ & Hget).
  rewrite H in H'. injection H' as <- <- <-.
  destruct (Hget t [r; c] Ht) as (px & Hpx & ->); [solve_in_range|].
  set (u := samples g _). destruct (Hu (position g
    + offset [time_window self; 1; 28; 28] [t; 0; r; c])) as [Hu0 Hu1].
  fold u in Hu0, Hu1. rewrite Hpx. split; intros [= ->]; f_equal; unfold spike.
  - rewrite bool_decide_eq_false_2; [done|].
    apply Qle_not_lt. apply Qle_trans with 0%Q; [by vm_compute|exact Hu0].
  - rewrite bool_decide_eq_true_2; [done|].
    apply Qlt_le_trans with 1%Q; [exact Hu1|]. by vm_compute.
Qed.

Lemma MNIST_black_and_white_witness :
  let self := mkMNIST (Tensor [1; 28; 28] (replicate 784 Byte.xff)) [7%Z] true 2 in
  let g := Generator (λ _, 1 # 2) 0 in
  ∃ raster target g',
    __getitem__ self 0 g = Some (raster, target, g') ∧
    get raster [1; 0; 3; 4] = Some 1%Q.
Proof.
  intros self g.
  assert (Hwf : wf_dataset self 1) by (repeat split; reflexivity).
  assert (Hk : wrap_index 1 0 = Some 0) by reflexivity.
  assert (Hu : ∀ i, (0 <= samples g i)%Q ∧ (samples g i < 1)%Q)
    by (intros i; split; by vm_compute).
  destruct (__getitem__ self 0 g) as [[[raster target] g']|] eqn:H.
  - exists raster, target, g'. split; [reflexivity|].
    refine (proj2 (MNIST_black_and_white self 1 0 0 g g' raster target
                     Hwf Hk eq_refl Hu H 1 3 4 _ _ _) eq_refl);
      simpl; lia.
  - exfalso. vm_compute in H. discriminate H.
Defined.

End mnist_more.

(** ** The synops loss *)

Section synops_loss.
Import SynopsLoss.

Lemma underflow_small : (0 < underflow)%Q ∧ (4 * underflow <= 1)%Q.
Proof. split; by vm_compute. Qed.

Lemma overflow_large : (1 < overflow)%Q.
Proof. by vm_compute. Qed.

Lemma round_Infinity x :
  (overflow <= Qabs x)%Q → round x = Infinity (bool_decide (x < 0)%Q).
Proof. intros H. unfold round. by rewrite decide_True. Qed.

Lemma round_Finite x :
  (underflow < Qabs x)%Q → (Qabs x < overflow)%Q → round x = Finite x.
Proof.
  intros Hu Ho. unfold round.
  rewrite decide_False by (by apply Qlt_not_le).
  rewrite decide_False by (by apply Qlt_not_le). done.
Qed.

Lemma round_zero x : (Qabs x <= underflow)%Q → round x = Finite 0.
Proof.
  intros Hu. unfold round.
  pose proof underflow_small as [_ Hu4]. pose proof overflow_large.
  rewrite decide_False by (apply Qlt_not_le; lra).
  by rewrite decide_True.
Qed.

Lemma Qabs_square x : (Qabs x * Qabs x == x * x)%Q.
Proof.
  rewrite <- Qabs_Qmult. apply Qabs_pos.
  destruct (Qlt_le_dec x 0); nra.
Qed.

Lemma round_not_negative x : (0 <= x)%Q → not_negative (round x).
Proof.
  intros Hx. unfold round.
  destruct (decide (overflow <= Qabs x)%Q); simpl.
  - apply bool_decide_eq_false_2. by apply Qle_not_lt.
  - by destruct (decide (Qabs x <= underflow)%Q).
Qed.

Lemma square_not_negative a : not_negative (square a).
Proof.
  destruct a as [x| |]; simpl; [|done..].
  apply round_not_negative. destruct (Qlt_le_dec x 0); nra.
Qed.

Lemma div_not_negative a b :
  not_negative a → not_negative b → not_negative (div a b).
Proof.
  destruct a as [x|s|], b as [y|s'|]; simpl; try done.
  - intros Hx Hy. destruct (decide (y == 0)%Q) as [Hy0|Hy0].
    + destruct (decide (x == 0)%Q); simpl; [done|].
      apply bool_decide_eq_false_2. by apply Qle_not_lt.
    + apply round_not_negative. apply Qle_shift_div_l; [|lra].
      apply Qle_lteq in Hy as [Hy|Hy]; [done|]. by symmetry in Hy.
  - intros -> Hy. simpl. apply bool_decide_eq_false_2. by apply Qle_not_lt.
Qed.

(** X11: in the cell as written, where the target is half of the total
    that is then compared with it, the synops loss is 1 when the square
    of half the total neither overflows nor underflows in float32, and
    not-a-number otherwise, in particular for a total of 0; for any finite
    target and count the loss is never negative: it is a finite number
    from 0 on, the positive infinity or not-a-number. *)
Theorem synops_loss_spec (total target synops : Q) :
  (square_in_range (total / 2) → ∃ l, cell total = Finite l ∧ (l == 1)%Q) ∧
  (¬ square_in_range (total / 2) → cell total = NaN) ∧
  not_negative (synops_loss (Finite target) (Finite synops)).
Proof.
  pose proof underflow_small as [Hu0 Hu4]. pose proof overflow_large as Ho1.
  set (x := (total / 2)%Q).
  pose proof (Qabs_square x) as Hsq. pose proof (Qabs_nonneg x) as Ha0.
  assert (Hdiff : (Qabs (x - total) == Qabs x)%Q).
  { rewrite <- (Qabs_opp x). apply Qabs_wd. unfold x. field. }
  assert (Hdiffsq : ((x - total) * (x - total) == x * x)%Q) by (unfold x; field).
  assert (Hsq0 : ∀ y : Q, (Qabs (y * y) == y * y)%Q).
  { intros y. apply Qabs_pos. destruct (Qlt_le_dec y 0); nra. }
  assert (Htarget : div (Finite total) (Finite 2) = round x).
  { reflexivity. }
  unfold cell, synops_loss. rewrite Htarget. split_and!.
  - intros [Hlo Hhi].
    assert (underflow < Qabs x)%Q as Hau by nra.
    assert (Qabs x < overflow)%Q as Hao by nra.
    rewrite (round_Finite x) by done. simpl.
    rewrite (round_Finite (x - total)) by (by rewrite Hdiff). simpl.
    rewrite (round_Finite ((x - total) * (x - total)))
      by (rewrite Hsq0, Hdiffsq; done).
    rewrite (round_Finite (x * x)) by (by rewrite Hsq0). simpl.
    assert (Hnz : ¬ (x * x == 0)%Q) by (intros Heq; rewrite Heq in Hlo; lra).
    rewrite decide_False by done.
    assert (Hone : ((x - total) * (x - total) / (x * x) == 1)%Q).
    { rewrite Hdiffsq. field. intros Hx0. apply Hnz. rewrite Hx0. reflexivity. }
    rewrite (round_Finite _); [by eexists| |].
    + rewrite Hone. by vm_compute.
    + rewrite Hone. exact Ho1.
  - intros Hout.
    destruct (Qlt_le_dec (x * x) overflow) as [Hhi|Hhi].
    + assert (x * x <= underflow)%Q as Hlo.
      { apply Qnot_lt_le. intros Hlo. by apply Hout. }
      assert (Qabs x < overflow)%Q as Hao by nra.
      assert (round ((x - total) * (x - total)) = Finite 0) as Hnum.
      { apply round_zero. by rewrite Hsq0, Hdiffsq. }
      destruct (Qlt_le_dec underflow (Qabs x)) as [Hau|Hau].
      * rewrite (round_Finite x) by done. simpl.
        rewrite (round_Finite (x - total)) by (by rewrite Hdiff). simpl.
        rewrite Hnum, (round_zero (x * x)) by (by rewrite Hsq0). reflexivity.
      * rewrite (round_zero x) by done. simpl.
        assert (Htot : (Qabs (0 - total) == 2 * Qabs x)%Q).
        { transitivity (Qabs (2 * x)).
          - rewrite <- (Qabs_opp (2 * x)). apply Qabs_wd. unfold x. field.
          - rewrite Qabs_Qmult. reflexivity. }
        assert (round ((0 - total) * (0 - total)) = Finite 0) as Hnum0.
        { apply round_zero. rewrite Hsq0.
          assert (((0 - total) * (0 - total) == 4 * (x * x))%Q) as ->
            by (unfold x; field).
          nra. }
        assert (square (round (0 - total)) = Finite 0) as ->.
        { unfold round at 1.
          destruct (decide (overflow <= Qabs (0 - total))%Q) as [Hbig|_].
          { exfalso. rewrite Htot in Hbig. lra. }
          destruct (decide (Qabs (0 - total) <= underflow)%Q); simpl.
          - apply round_zero. by vm_compute.
          - exact Hnum0. }
        rewrite (round_zero (0 * 0)) by (by vm_compute). reflexivity.
    + assert (1 < Qabs x)%Q as Ha1 by nra.
      assert (round ((x - total) * (x - total)) = Infinity false) as Hnum.
      { rewrite round_Infinity by (by rewrite Hsq0, Hdiffsq).
        f_equal. apply bool_decide_eq_false_2, Qle_not_lt. nra. }
      destruct (Qlt_le_dec (Qabs x) overflow) as [Hao|Hao].
      * rewrite (round_Finite x) by lra. simpl.
        rewrite (round_Finite (x - total)) by (rewrite Hdiff; lra). simpl.
        rewrite Hnum, (round_Infinity (x * x)) by (by rewrite Hsq0). done.
      * rewrite (round_Infinity x) by done. simpl. done.
  - apply div_not_negative; apply square_not_negative.
Qed.

(** A total of [2 * 10^20]: the squares overflow. *)
Lemma synops_loss_spec_witness :
  (∃ l, cell 1000 = Finite l ∧ (l == 1)%Q) ∧
  cell (inject_Z (2 * 10 ^ 20)) = NaN ∧
  cell 0 = NaN.
Proof.
  split_and!.
  - apply (proj1 (synops_loss_spec 1000 0 0)). split; by vm_compute.
  - apply (proj1 (proj2 (synops_loss_spec (inject_Z (2 * 10 ^ 20)) 0 0))).
    intros [_ H]. by vm_compute in H.
  - apply (proj1 (proj2 (synops_loss_spec 0 0 0))).
    intros [H _]. by vm_compute in H.
Defined.

End synops_loss.

(** ** What a run of the workflow publishes *)

Section ci_run.
Import CI CIRun.

Lemma run_job_Success ok j :
  job_status (run_job ok j) = Success ↔ all_ok ok j (steps j).
Proof.
  rewrite job_status_Success. unfold run_job, all_ok.
  rewrite Forall_fmap, Forall_forall. split.
  - intros H e s He Hs. specialize (H e He). simpl in H.
    pose proof (run_steps_passed (ok (job_id j) e) e (steps j)) as Hp.
    destruct (run_steps (ok (job_id j) e) e (steps j)) as [names r].
    simpl in *. apply Hp in H. by eapply Forall_forall in H.
  - intros H e He. simpl.
    pose proof (run_steps_passed (ok (job_id j) e) e (steps j)) as Hp.
    destruct (run_steps (ok (job_id j) e) e (steps j)) as [names r].
    simpl in *. apply Hp. apply Forall_forall. intros s Hs. by apply H.
Qed.

Lemma run_job_started ok j r name :
  r ∈ run_job ok j → name ∈ started r →
  ∃ e s, e ∈ expand (matrix j) ∧ s ∈ steps j ∧ name = render e (step_name s).
Proof.
  unfold run_job. intros (e & -> & He)%list_elem_of_fmap Hin.
  pose proof (run_steps_prefix (ok (job_id j) e) e (steps j)) as Hpre.
  destruct (run_steps (ok (job_id j) e) e (steps j)) as [names res].
  simpl in *. apply list_elem_of_lookup in Hin as [i Hi].
  pose proof (prefix_lookup_Some _ _ _ _ Hi Hpre) as Hi'.
  rewrite list_lookup_fmap in Hi'.
  destruct (steps j !! i) as [s|] eqn:Hs; [|done]. injection Hi' as <-.
  exists e, s. split_and!; [done| |done]. by eapply list_elem_of_lookup_2.
Qed.

(** X12: in a run of the workflow the step that publishes the package to
    PyPI is started exactly when every step of every combination of
    [multitest], every step of [documentation] and the four steps of
    [build-and-publish] before it have succeeded. *)
Theorem publish_iff (ok : string → entry → step → bool) :
  was_started (run_workflow ok) "Publish distribution package to PyPI" ↔
  all_ok ok multitest (steps multitest) ∧
  all_ok ok documentation (steps documentation) ∧
  all_ok ok build_and_publish (take 4 (steps build_and_publish)).
Proof.
  rewrite (run_workflow_unfold ok). cbv zeta.
  rewrite <- !run_job_Success. split.
  - intros (jr & r & Hjr & Hr & Hin).
    apply elem_of_cons in Hjr as [->|Hjr].
    { destruct (run_job_started _ _ _ _ Hr Hin) as (e & s & He & Hs & Hname).
      exfalso. apply expand_multitest in He as (os & py & torch & -> & _).
      repeat (apply elem_of_cons in Hs as [->|Hs]; [by simpl in Hname|]).
      by apply elem_of_nil in Hs. }
    apply elem_of_cons in Hjr as [->|Hjr].
    { exfalso. case_decide; [|by apply elem_of_nil in Hr].
      destruct (run_job_started _ _ _ _ Hr Hin) as (e & s & He & Hs & Hname).
      apply list_elem_of_singleton in He as ->.
      repeat (apply elem_of_cons in Hs as [->|Hs]; [by simpl in Hname|]).
      by apply elem_of_nil in Hs. }
    apply list_elem_of_singleton in Hjr as ->.
    case_decide as Hd; [|by apply elem_of_nil in Hr].
    destruct Hd as [H1 H2]. split_and!; [done..|].
    simpl in Hr. unfold run_job in Hr.
    change (expand (matrix build_and_publish)) with [[] : entry] in Hr.
    rewrite list_fmap_singleton in Hr. apply list_elem_of_singleton in Hr as ->.
    pose proof (run_steps_prefix (ok (job_id build_and_publish) []) []
                  (steps build_and_publish)) as Hpre.
    pose proof (run_steps_started (ok (job_id build_and_publish) []) []
                  (steps build_and_publish)) as Hstarted.
    destruct (run_steps _ _ (steps build_and_publish)) as [names res].
    simpl in *. apply list_elem_of_lookup in Hin as [i Hi].
    pose proof (prefix_lookup_Some _ _ _ _ Hi Hpre) as Hi'.
    pose proof (Hstarted _ _ Hi) as Hok.
    destruct i as [|[|[|[|[|i]]]]]; simpl in Hi'; try discriminate.
    intros e s He Hs. apply list_elem_of_singleton in He as ->.
    by eapply Forall_forall in Hok.
  - intros (H1 & H2 & H3).
    exists (JobRun "build-and-publish" (job_status (run_job ok build_and_publish))
                   (run_job ok build_and_publish)).
    rewrite (decide_True (P:=_ ∧ _)) by done.
    eexists. split; [do 2 apply list_elem_of_further; apply list_elem_of_here|].
    simpl. unfold run_job.
    change (expand (matrix build_and_publish)) with [[] : entry].
    rewrite list_fmap_singleton. split; [apply list_elem_of_here|].
    pose proof (run_steps_reaches (ok (job_id build_and_publish) []) []
                  (steps build_and_publish) 4 _ eq_refl) as Hreach.
    destruct (run_steps _ _ (steps build_and_publish)) as [names res].
    simpl in *. eapply list_elem_of_lookup_2, Hreach.
    apply Forall_forall. intros s Hs. apply H3; [apply list_elem_of_here|done].
Qed.

End ci_run.

(** ** The work done by a run of a tutorial *)

Section workload.
Import Notebook Workload.

Lemma count_app e l1 l2 : count e (l1 ++ l2) = count e l1 + count e l2.
Proof. unfold count. by rewrite filter_app, length_app. Qed.

Lemma count_join_replicate e n l :
  count e (mjoin (replicate n l)) = n * count e l.
Proof.
  induction n as [|n IH]; [done|]. simpl. rewrite count_app, IH. lia.
Qed.

Lemma count_replicate e n x :
  count e (replicate n x) = if decide (x = e) then n else 0.
Proof.
  unfold count. induction n as [|n IH]; simpl.
  - by case_decide.
  - rewrite filter_cons. repeat case_decide; simpl; try done; lia.
Qed.

Lemma count_cons e x l :
  count e (x :: l) = (if decide (x = e) then 1 else 0) + count e l.
Proof. unfold count. rewrite filter_cons. by case_decide. Qed.


(** X13: a run of weight_transfer_mnist on a test set of at least 11
    images whose batches of 10 read by cell 9 are full (300 images or
    more, or a multiple of 10) reaches its end; it makes two passes over
    the training batches, one forward pass of the ANN per batch of 128
    test images and, through the converted network, one forward pass per
    batch of 10 up to 30 batches (300 samples) plus one for the plotted
    sample; it never resets the state of the converted network. *)
Theorem WT_workload (n_train n_samples : nat) :
  11 ≤ n_samples → 300 ≤ n_samples ∨ n_samples mod 10 = 0 →
  ∃ tr, WT.run n_train n_samples = Some tr ∧
    count (EvTrainStep (Ann "ann")) tr = 2 * n_train ∧
    count (EvForward (Ann "ann")) tr
    = n_samples / 128 + (if decide (n_samples mod 128 = 0) then 0 else 1) ∧
    count (EvForward (Converted 0)) tr = (n_samples / 10) `min` 30 + 1 ∧
    count (EvResetStates (Converted 0)) tr = 0.
Proof.
  intros Hs Hfull. eexists. split; [by apply run_WeightTransfer|].
  assert (length (WT.batch_sizes n_samples WT.batch_size)
          = n_samples / 128 + (if decide (n_samples mod 128 = 0) then 0 else 1))
    as ->.
  { unfold WT.batch_sizes, WT.batch_size. rewrite length_app, length_replicate.
    by case_decide. }
  generalize (n_samples / 128 + (if decide (n_samples mod 128 = 0) then 0 else 1)).
  intros n_test.
  unfold WT_trace. generalize ((n_samples / 10) `min` 30). intros m.
  repeat rewrite ?count_app, ?count_cons, ?count_join_replicate, ?count_replicate.
  repeat first [ rewrite decide_True by done | rewrite decide_False by done ].
  unfold count. simpl. lia.
Qed.

(** A training set of 3 batches and a test set of 320 images. *)
Lemma WT_workload_witness :
  ∃ tr, WT.run 3 320 = Some tr ∧
    count (EvTrainStep (Ann "ann")) tr = 2 * 3 ∧
    count (EvForward (Ann "ann")) tr
    = 320 / 128 + (if decide (320 mod 128 = 0) then 0 else 1) ∧
    count (EvForward (Converted 0)) tr = (320 / 10) `min` 30 + 1 ∧
    count (EvResetStates (Converted 0)) tr = 0.
Proof. apply (WT_workload 3 320); [lia|left; lia]. Defined.

(** X14: a run of LeNet_5_EngChinese with a non-empty test loader makes
    two passes over the training batches and one forward pass of the ANN
    per test batch; the converted network sees the first 2001 samples of
    the spiking test loader, one forward pass each, and its state is
    reset as many times. *)
Theorem LN_workload (n_train n_test n_spike : nat) :
  0 < n_test →
  ∃ tr, run LeNet5 n_train n_test n_spike = Some tr ∧
    count (EvTrainStep (Ann "classifier")) tr = 2 * n_train ∧
    count (EvForward (Ann "classifier")) tr = n_test ∧
    count (EvForward (Converted 0)) tr = n_spike `min` 2001 ∧
    count (EvResetStates (Converted 0)) tr = n_spike `min` 2001.
Proof.
  intros Ht. eexists. split; [by apply run_LeNet5|].
  unfold LN_trace. generalize (n_spike `min` 2001). intros m.
  repeat rewrite ?count_app, ?count_cons, ?count_join_replicate, ?count_replicate.
  repeat first [ rewrite decide_True by done | rewrite decide_False by done ].
  unfold count. simpl. lia.
Qed.

Lemma LN_workload_witness :
  ∃ tr, run LeNet5 3 2 5 = Some tr ∧
    count (EvTrainStep (Ann "classifier")) tr = 2 * 3 ∧
    count (EvForward (Ann "classifier")) tr = 2 ∧
    count (EvForward (Converted 0)) tr = 5 `min` 2001 ∧
    count (EvResetStates (Converted 0)) tr = 5 `min` 2001.
Proof. apply (LN_workload 3 2 5); lia. Defined.


(** In a list made of copies of [[a; b]] every [b] comes right after an
    [a]. *)
Lemma lookup_pairs {A} (a b : A) n i :
  a ≠ b → mjoin (replicate n [a; b]) !! i = Some b →
  ∃ j, i = S j ∧ mjoin (replicate n [a; b]) !! j = Some a.
Proof.
  intros Hab. revert i. induction n as [|n IH]; intros i; [done|].
  simpl. destruct i as [|[|i]]; simpl.
  - intros [= ?]. done.
  - intros _. by exists 0.
  - intros (j & -> & Hj)%IH. by exists (S (S j)).
Qed.

(** X16: in a run of LeNet_5_EngChinese every forward pass through the
    spiking network comes right after a reset of the states of that
    network. *)
Theorem LN_reset_before_inference (n_train n_test n_spike : nat) :
  0 < n_test →
  ∃ tr, run LeNet5 n_train n_test n_spike = Some tr ∧
    ∀ i net, spiking_inference tr i net →
      ∃ j, i = S j ∧ tr !! j = Some (EvResetStates net).
Proof.
  intros Ht. eexists. split; [by apply run_LeNet5|].
  intros i net [Hi Hnet]. unfold LN_trace in *.
  set (pre := [EvDefine (Ann "classifier")]
    ++ mjoin (replicate 2 (mjoin (replicate n_train [EvTrainStep (Ann "classifier")])))
    ++ [EvEvalMode (Ann "classifier")]
    ++ mjoin (replicate n_test [EvForward (Ann "classifier")])
    ++ [EvPrint]) in *.
  assert (Hpre : Forall (λ e, spiking_target e = None) pre).
  { unfold pre. repeat (apply Forall_app; split);
      repeat apply Forall_join_replicate; by repeat constructor. }
  apply lookup_app_Some in Hi as [Hi|[Hge Hi]].
  { eapply Forall_lookup in Hpre; [|exact Hi]. simpl in *. congruence. }
  destruct (i - length pre) as [|[|k]] eqn:Hk; simpl in Hi; [done|done|].
  apply lookup_app_Some in Hi as [Hi|[Hge' Hi]].
  - assert (net = Converted 0) as ->.
    { pose proof (list_elem_of_lookup_2 _ _ _ Hi) as Hin.
      apply list_elem_of_join in Hin as (l & Hnet' & Hl).
      apply elem_of_replicate in Hl as [-> _].
      apply elem_of_cons in Hnet' as [?|Hnet'];
        [|apply list_elem_of_singleton in Hnet']; congruence. }
    apply lookup_pairs in Hi as (j & -> & Hj); [|done].
    exists (length pre + S (S j)). split; [lia|].
    rewrite lookup_app_r by lia.
    replace (length pre + S (S j) - length pre) with (S (S j)) by lia.
    simpl. by rewrite lookup_app_l by (by eapply lookup_lt_Some).
  - destruct (k - _) as [|?]; simpl in Hi; done.
Qed.

Lemma LN_reset_before_inference_witness :
  ∃ tr, run LeNet5 1 1 2 = Some tr ∧
    ∀ i net, spiking_inference tr i net →
      ∃ j, i = S j ∧ tr !! j = Some (EvResetStates net).
Proof. apply (LN_reset_before_inference 1 1 2). lia. Defined.

End workload.

(** ** The accuracy cells of weight_transfer_mnist *)

Section wt_eval.
Import LeNet WTEval.

Lemma get_col {A} (t : tensor A) b i :
  shape t = [b; 1] → i < b → get t [i; 0] = storage t !! i.
Proof.
  intros Hs Hi. unfold get. rewrite Hs, decide_True by solve_in_range.
  unfold offset. simpl. f_equal. lia.
Qed.

(** Comparing two tensors of the same sizes compares their entries one
    by one. *)
Lemma broadcast_map2_same {A B C} (f : A → B → C) (a : tensor A) (b : tensor B) :
  wf a → wf b → shape a = shape b →
  broadcast_map2 f a b
  = Some (Tensor (shape a) (zip_with f (storage a) (storage b))).
Proof.
  intros Hwfa Hwfb Hs.
  destruct (broadcast_map2_prefix f a b [] Hwfa Hwfb Hs)
    as (r & -> & Hsr & Hwfr & Hget).
  f_equal. apply tensor_ext; [done| |done|].
  - unfold wf in *. simpl. rewrite length_zip_with. rewrite <- Hs in Hwfb. lia.
  - intros ix Hix. rewrite Hsr in Hix. rewrite (Hget ix Hix). rewrite drop_0.
    unfold get. simpl. rewrite <- Hs. rewrite !decide_True by done.
    rewrite lookup_zip_with. done.
Qed.

Lemma max_dim_rows (output : tensor Q) b c :
  shape output = [b; c] → wf output → 1 ≤ c →
  ∃ values predicted, max_dim output 1 = Some (values, predicted) ∧
    shape predicted = [b] ∧ wf predicted.
Proof.
  intros Hso Hwfo Hc.
  assert (Hrow : ∀ ix, in_range [b] ix →
            ∃ row x k, lane output 1 ix = Some row ∧ max_row row = Some (x, k)).
  { intros ix Hix. inversion Hix as [|i ? ? ? Hi Hnil]; subst.
    inversion Hnil; subst.
    pose proof (lane_row output b c i Hso Hwfo Hi) as Hl.
    destruct (max_row_first_max (take c (drop (i * c) (storage output))))
      as (x & k & Hmax & _).
    { intros Hnil'. apply (f_equal length) in Hnil'.
      rewrite length_take, length_drop in Hnil'. unfold wf in Hwfo.
      rewrite Hso in Hwfo. simpl in *. nia. }
    by eexists _, x, k. }
  unfold max_dim, Tensor.dim. rewrite Hso.
  change (wrap_index (length [b; c]) 1) with (Some 1).
  cbn [mbind option_bind lookup list_lookup delete list_delete].
  rewrite decide_False by lia.
  destruct (tabulate_is_Some [b] (λ ix, row ← lane output 1 ix; fst <$> max_row row))
    as [values Hv].
  { intros ix (row & x & k & -> & Hmax)%Hrow. simpl. by rewrite Hmax. }
  destruct (tabulate_is_Some [b]
              (λ ix, row ← lane output 1 ix; (Z.of_nat ∘ snd) <$> max_row row))
    as [predicted Hp].
  { intros ix (row & x & k & -> & Hmax)%Hrow. simpl. by rewrite Hmax. }
  rewrite Hv. simpl. rewrite Hp. simpl.
  apply tabulate_Some in Hp as (Hsp & Hwfp & _). by eexists _, _.
Qed.

Lemma unsqueeze_col {A} (t : tensor A) b :
  shape t = [b] → wf t →
  ∃ u, unsqueeze t 1 = Some u ∧ shape u = [b; 1] ∧ wf u ∧ storage u = storage t.
Proof.
  intros Hs Hwf. unfold unsqueeze, Tensor.dim. rewrite Hs.
  change (wrap_index (S (length [b])) 1) with (Some 1).
  cbn [mbind option_bind take drop app].
  destruct (tabulate_is_Some [b; 1] (λ ix, get t (delete 1 ix))) as [u Hu].
  { intros ix Hix. apply get_is_Some; [done|]. rewrite Hs.
    inversion Hix as [|i ? ? ? Hi Hix']; subst.
    inversion Hix' as [|j ? ? ? Hj Hnil]; subst. inversion Hnil; subst.
    simpl. solve_in_range. }
  exists u. split; [done|].
  apply tabulate_Some in Hu as (Hsu & Hwfu & Hget). split_and!; [done..|].
  apply list_eq. intros p. destruct (decide (p < b)) as [Hp|Hp].
  - rewrite <- (get_col u b) by done. rewrite Hget by solve_in_range.
    simpl. by apply (get_1d t b).
  - unfold wf in *. rewrite Hsu in Hwfu. rewrite Hs in Hwf. simpl in *.
    rewrite !lookup_ge_None_2 by lia. done.
Qed.

(** The comparison of cell 5 for one batch marks the same rows as
    [count_correct] counts. *)
Lemma correct_count (output : tensor Q) (target : tensor Z) b c :
  shape output = [b; c] → wf output → 1 ≤ c → shape target = [b] → wf target →
  ∃ cr, correct output target = Some cr ∧ shape cr = [b; 1] ∧
    length (storage cr) = b ∧
    count_correct output target = Some (inject_Z (Z.of_nat (sum_bool cr))).
Proof.
  intros Hso Hwfo Hc Hst Hwft.
  destruct (max_dim_rows output b c Hso Hwfo Hc)
    as (values & predicted & Hmax & Hsp & Hwfp).
  destruct (unsqueeze_col predicted b Hsp Hwfp) as (pred & Hpred & Hspred & Hwfpred & Hst').
  unfold correct, argmax_keepdim, count_correct. rewrite Hmax.
  cbn [mbind option_bind]. unfold Tensor.dim. rewrite Hso.
  change (wrap_index (length [b; c]) 1) with (Some 1).
  cbn [mbind option_bind]. change (Z.of_nat 1) with 1%Z. rewrite Hpred.
  cbn [mbind option_bind]. unfold view_as. rewrite Hspred, Hst.
  rewrite decide_True by (simpl; lia). cbn [mbind option_bind].
  unfold eq.
  rewrite (broadcast_map2_same _ pred (Tensor [b; 1] (storage target)));
    [|done| |done].
  2:{ unfold wf in *. rewrite Hst in Hwft. simpl in *. lia. }
  rewrite (broadcast_map2_same _ predicted target) by (done || congruence).
  eexists. split; [done|]. simpl. rewrite Hspred, Hst'. split; [done|]. split.
  - unfold wf in *. rewrite Hsp in Hwfp. rewrite Hst in Hwft. simpl in *.
    rewrite length_zip_with. lia.
  - done.
Qed.

Lemma cat_cols (cs : list (tensor bool)) :
  cs ≠ [] → Forall (λ c, ∃ b, shape c = [b; 1]) cs →
  cat cs = Some (Tensor [sum_list (omap (head ∘ shape) cs); 1]
                        (mjoin (storage <$> cs))).
Proof.
  destruct cs as [|c cs]; [done|]. intros _ Hall. unfold cat.
  pose proof Hall as [[b Hb] _]%Forall_cons. rewrite Hb.
  rewrite decide_True; [done|].
  eapply Forall_impl; [exact Hall|]. intros u [n Hn]. by rewrite Hn.
Qed.

Lemma sum_bool_join (cs : list (tensor bool)) s :
  sum_bool (Tensor s (mjoin (storage <$> cs))) = sum_list (sum_bool <$> cs).
Proof.
  unfold sum_bool. cbn [storage]. induction cs as [|c cs IH]; [done|].
  csimpl. rewrite filter_app, length_app, IH. done.
Qed.

Section ann_loop.
Context {Model : Type}.
Context (forward : Model → tensor Q → option (tensor Q)).

(** The loop of cell 5 and the loop of [test] of the LeNet tutorial on
    the same loader. *)
Lemma ann_loop_test_loop model loader :
  rows_of_scores forward model loader →
  ∀ cps n_correct n_test, ∃ cs n_correct',
    ann_loop forward model loader cps = Some (cps ++ cs) ∧
    test_loop forward model loader n_correct n_test
    = Some (n_correct', n_test + sum_list (omap (head ∘ shape) cs)) ∧
    (n_correct' == n_correct + inject_Z (Z.of_nat (sum_list (sum_bool <$> cs))))%Q ∧
    Forall (λ c, ∃ b, shape c = [b; 1]) cs ∧
    (cs = [] ↔ loader = []).
Proof.
  induction loader as [|[data target] loader IH]; intros Hall cps n_correct n_test.
  - exists [], n_correct. simpl. rewrite app_nil_r, Nat.add_0_r.
    split_and!; [done..| |constructor|done]. by rewrite Qplus_0_r.
  - destruct (Hall data target) as (output & b & c & Hout & Hso & Hwfo & Hc & Hst & Hwft);
      [apply list_elem_of_here|].
    destruct (correct_count output target b c Hso Hwfo Hc Hst Hwft)
      as (cr & Hcr & Hscr & _ & Hcount).
    destruct (IH (λ d t Hin, Hall d t (list_elem_of_further _ _ _ Hin))
                 (cps ++ [cr])
                 (n_correct + inject_Z (Z.of_nat (sum_bool cr)))%Q (n_test + b))
      as (cs & n_correct' & Hloop & Htest & Hn & Hcs & _).
    exists (cr :: cs), n_correct'. cbn [ann_loop test_loop].
    rewrite Hout. cbn [mbind option_bind]. rewrite Hcr, Hcount.
    cbn [mbind option_bind]. unfold len. rewrite Hst. cbn [head mbind option_bind].
    rewrite Hloop, Htest. rewrite <- app_assoc. split_and!.
    + done.
    + do 2 f_equal. csimpl. rewrite Hscr. simpl. lia.
    + rewrite Hn. csimpl. rewrite Nat2Z.inj_add, inject_Z_plus. ring.
    + constructor 2; [by exists b|done].
    + done.
Qed.

(** X17: when the model returns a well-formed matrix of scores with one
    row per label, cell 5 of weight_transfer_mnist and [test] of the
    LeNet tutorial compute the same accuracy; both raise on the same
    loaders, among them the empty one. *)
Theorem ann_accuracy_is_test (model : Model) (loader : list batch) :
  (∀ data target, (data, target) ∈ loader →
     ∃ output b c, forward model data = Some output ∧
       shape output = [b; c] ∧ wf output ∧ 1 ≤ c ∧
       shape target = [b] ∧ wf target) →
  match ann_accuracy forward model loader, test forward model loader with
  | Some a, Some a' => (a == a')%Q
  | None, None => True
  | _, _ => False
  end.
Proof.
  intros Hall.
  destruct (ann_loop_test_loop model loader Hall [] 0%Q 0)
    as (cs & n_correct' & Hloop & Htest & Hn & Hcs & Hnil).
  unfold ann_accuracy, test. rewrite Hloop, Htest. cbn [mbind option_bind app].
  unfold accuracy. destruct (decide (cs = [])) as [->|Hne].
  - done.
  - rewrite (cat_cols cs Hne Hcs). cbn [mbind option_bind len head shape].
    rewrite sum_bool_join. unfold percentage. rewrite Nat.add_0_l.
    case_decide; [done|]. rewrite Hn. rewrite Qplus_0_l. reflexivity.
Qed.

End ann_loop.

Section snn_loop.
Context {Net : Type}.
Context (sinabs_model : Net → tensor Q → option (tensor Q * Net)).

Lemma spike_loop_take net loader cps :
  length cps < 30 →
  snn_loop sinabs_model net loader cps
  = snn_loop sinabs_model net (take (30 - length cps) loader) cps.
Proof.
  revert net cps. induction loader as [|[data target] loader IH]; intros net cps Hlen.
  - by rewrite take_nil.
  - replace (30 - length cps) with (S (29 - length cps)) by lia.
    rewrite firstn_cons. cbn [snn_loop].
    destruct (FlattenTime data) as [data'|]; [|done]. cbn [mbind option_bind].
    destruct (sinabs_model net data') as [[output net']|]; [|done].
    cbn [mbind option_bind].
    destruct (len output) as [n|]; [|done]. cbn [mbind option_bind].
    destruct (unflatten output test_batch_size (n / test_batch_size)) as [output'|];
      [|done].
    cbn [mbind option_bind].
    destruct (sum_dim output' 1) as [total|]; [|done]. cbn [mbind option_bind].
    destruct (correct total target) as [c|]; [|done]. cbn [mbind option_bind].
    case_decide as Hstop; [done|].
    rewrite length_app in Hstop. unfold test_batch_size in Hstop. simpl in Hstop.
    rewrite IH by (rewrite length_app; simpl; lia).
    rewrite length_app. simpl. do 2 f_equal. lia.
Qed.

(** X18: cell 9 reads the first 30 batches of the spiking test loader
    only: two loaders that agree on them give the same accuracy. *)
Theorem snn_accuracy_first_batches (net : Net) (loader1 loader2 : list batch) :
  take 30 loader1 = take 30 loader2 →
  snn_accuracy sinabs_model net loader1 = snn_accuracy sinabs_model net loader2.
Proof.
  intros H. unfold snn_accuracy.
  rewrite (spike_loop_take net loader1 []) by (simpl; lia).
  rewrite (spike_loop_take net loader2 []) by (simpl; lia).
  simpl. by rewrite H.
Qed.

(** X19: for a spiking network that returns a matrix of scores, a batch
    whose number of labels is not [test_batch_size] makes the loop of
    cell 9 raise: the output is regrouped into [test_batch_size] rows,
    which the labels cannot be viewed as. *)
Theorem snn_loop_batch_size (net : Net) (data : tensor Q) (target : tensor Z)
    (rest : list batch) (cps : list (tensor bool)) (b : nat) :
  (∀ net d output net', sinabs_model net d = Some (output, net') →
     ∃ n c, shape output = [n; c]) →
  shape target = [b] → b ≠ test_batch_size →
  snn_loop sinabs_model net ((data, target) :: rest) cps = None.
Proof.
  intros Hmodel Hst Hb. cbn [snn_loop].
  destruct (FlattenTime data) as [data'|]; [|done]. cbn [mbind option_bind].
  destruct (sinabs_model net data') as [[output net']|] eqn:Hout; [|done].
  cbn [mbind option_bind].
  destruct (Hmodel _ _ _ _ Hout) as (n & c & Hso).
  unfold len, unflatten. rewrite Hso. cbn [head mbind option_bind].
  case_decide; [|done]. cbn [mbind option_bind].
  unfold sum_dim, Tensor.dim. cbn [shape].
  change (wrap_index (length [test_batch_size; n / test_batch_size; c]) 1)
    with (Some 1).
  cbn [mbind option_bind delete list_delete].
  destruct (tabulate [test_batch_size; c] _) as [total|] eqn:Htotal; [|done].
  cbn [mbind option_bind].
  apply tabulate_Some in Htotal as (Hstot & _ & _).
  unfold correct, argmax_keepdim.
  destruct (max_dim total 1) as [[values indices]|] eqn:Hmax; [|done].
  cbn [mbind option_bind]. unfold Tensor.dim. rewrite Hstot.
  change (wrap_index (length [test_batch_size; c]) 1) with (Some 1).
  cbn [mbind option_bind]. change (Z.of_nat 1) with 1%Z.
  unfold max_dim, Tensor.dim in Hmax. rewrite Hstot in Hmax.
  change (wrap_index (length [test_batch_size; c]) 1) with (Some 1) in Hmax.
  cbn [mbind option_bind lookup list_lookup delete list_delete] in Hmax.
  case_decide; [done|].
  apply bind_Some in Hmax as (v & _ & Hmax).
  apply bind_Some in Hmax as (p & Hp & [= _ <-]).
  apply tabulate_Some in Hp as (Hsp & _ & _).
  unfold unsqueeze, Tensor.dim. rewrite Hsp.
  change (wrap_index (S (length [test_batch_size])) 1) with (Some 1).
  cbn [mbind option_bind take drop app].
  destruct (tabulate [test_batch_size; 1] _) as [pred|] eqn:Hpred; [|done].
  cbn [mbind option_bind].
  apply tabulate_Some in Hpred as (Hspred & _ & _).
  unfold view_as. rewrite Hst, Hspred.
  rewrite decide_False; [done|]. unfold test_batch_size in *. simpl. lia.
Qed.

End snn_loop.

Lemma ann_accuracy_is_test_witness :
  let forward (_ : unit) (_ : tensor Q) := Some (Tensor [2; 3] [1; 5; 5; 0; 0; 0]%Q) in
  let loader : list batch := [(Tensor [2] [0; 0]%Q, Tensor [2] [1; 1]%Z)] in
  match ann_accuracy forward tt loader, test forward tt loader with
  | Some a, Some a' => (a == a')%Q
  | None, None => True
  | _, _ => False
  end.
Proof.
  intros forward loader. apply (ann_accuracy_is_test forward tt loader).
  intros data target Hin.
  apply list_elem_of_singleton in Hin. injection Hin as -> ->.
  exists (Tensor [2; 3] [1; 5; 5; 0; 0; 0]%Q), 2, 3.
  split_and!; [reflexivity..|lia|reflexivity|reflexivity].
Defined.

Lemma snn_accuracy_first_batches_witness :
  let model (_ : unit) (d : tensor Q) := Some (Tensor [10; 2] (replicate 20 0%Q), tt) in
  let sample : batch := (Tensor [10; 1; 1] (replicate 10 0%Q), Tensor [10] (replicate 10 0%Z)) in
  snn_accuracy model tt (replicate 30 sample ++ [sample])
  = snn_accuracy model tt (replicate 30 sample).
Proof.
  intros model sample.
  apply (snn_accuracy_first_batches model tt). reflexivity.
Defined.

Lemma snn_loop_batch_size_witness :
  let model (_ : unit) (d : tensor Q) := Some (Tensor [10; 2] (replicate 20 0%Q), tt) in
  snn_loop model tt [(Tensor [5; 2; 1] (replicate 10 0%Q), Tensor [5] (replicate 5 0%Z))] []
  = None.
Proof.
  intros model. apply (snn_loop_batch_size model tt _ _ [] [] 5).
  - intros net d output net' [= <- _]. by exists 10, 2.
  - reflexivity.
  - unfold test_batch_size. lia.
Defined.

End wt_eval.

(** ** More on [count_correct]: a single row of scores *)

Section single_row.
Import LeNet.

Lemma broadcast_shapes_1 b : broadcast_shapes [1] [b] = Some [b].
Proof.
  unfold broadcast_shapes. simpl. repeat case_decide; simpl; try done; by subst.
Qed.

Lemma length_filter_fmap_bool {A} (f : A → bool) (l : list A) :
  length (filter (λ b : bool, b = true) (f <$> l))
  = length (filter (λ x, f x = true) l).
Proof.
  induction l as [|x l IH]; [done|]. csimpl. rewrite !filter_cons.
  repeat case_decide; simpl; congruence.
Qed.

(** X20: with a single row of scores and any number of labels,
    [count_correct] does not raise: the prediction of the row is compared
    with every label, and the result is the number of labels equal to
    the first maximum of the row. *)
Theorem count_correct_single_row (output : tensor Q) (target : tensor Z) (c b : nat) :
  shape output = [1; c] → wf output → 1 ≤ c → shape target = [b] → wf target →
  ∃ k, first_max (storage output) k ∧
    count_correct output target
    = Some (inject_Z (Z.of_nat
        (length (filter (λ t, bool_decide (Z.of_nat k = t) = true) (storage target))))).
Proof.
  intros Hso Hwfo Hc Hst Hwft.
  assert (Hlen : length (storage output) = c).
  { unfold wf in Hwfo. rewrite Hso in Hwfo. simpl in Hwfo. lia. }
  pose proof (lane_row output 1 c 0 Hso Hwfo ltac:(lia)) as Hlane.
  rewrite drop_0, firstn_all2 in Hlane by lia.
  destruct (max_row_first_max (storage output)) as (x & k & Hmax & Hfm).
  { intros Hnil. rewrite Hnil in Hlen. simpl in Hlen. lia. }
  exists k. split; [done|].
  unfold count_correct, max_dim, Tensor.dim. rewrite Hso.
  change (wrap_index (length [1; c]) 1) with (Some 1).
  cbn [mbind option_bind lookup list_lookup delete list_delete].
  rewrite decide_False by lia.
  assert (Hrow : ∀ ix, in_range [1] ix → ix = [0]).
  { intros ix Hix. inversion Hix as [|i ? ? ? Hi Hnil]; subst.
    inversion Hnil; subst. f_equal. lia. }
  destruct (tabulate_is_Some [1] (λ ix, row ← lane output 1 ix; fst <$> max_row row))
    as [values Hv].
  { intros ix ->%Hrow. rewrite Hlane. simpl. by rewrite Hmax. }
  set (fi := λ ix, row ← lane output 1 ix; (Z.of_nat ∘ snd) <$> max_row row).
  destruct (tabulate_is_Some [1] fi) as [predicted Hp].
  { intros ix ->%Hrow. unfold fi. rewrite Hlane. simpl. by rewrite Hmax. }
  rewrite Hv. cbn [mbind option_bind]. rewrite Hp. cbn [mbind option_bind].
  apply tabulate_Some in Hp as (Hsp & Hwfp & Hgetp).
  assert (Hp0 : get predicted [0] = Some (Z.of_nat k)).
  { rewrite Hgetp by solve_in_range. unfold fi. rewrite Hlane. simpl.
    by rewrite Hmax. }
  unfold eq, broadcast_map2. rewrite Hsp, Hst, broadcast_shapes_1.
  cbn [mbind option_bind].
  set (f := λ ix, x ← get predicted (broadcast_index [1] ix);
                   y ← get target (broadcast_index [b] ix);
                   Some (bool_decide (x = y))).
  assert (Hf : ∀ ix, in_range [b] ix →
            f ix = (λ t, bool_decide (Z.of_nat k = t)) <$> get target ix).
  { intros ix Hix. unfold f. rewrite (broadcast_index_self [b]) by done.
    inversion Hix as [|i ? ? ? Hi Hnil]; subst. inversion Hnil; subst.
    unfold broadcast_index. simpl. rewrite Hp0.
    simpl. by destruct (get target [i]). }
  destruct (tabulate_is_Some [b] f) as [acc Hacc].
  { intros ix Hix. rewrite Hf by done. apply fmap_is_Some, get_is_Some; [done|].
    by rewrite Hst. }
  rewrite Hacc. cbn [mbind option_bind]. do 3 f_equal.
  apply tabulate_Some in Hacc as (Hsa & Hwfa & Hgeta).
  assert (Heq : acc = Tensor.map (λ t, bool_decide (Z.of_nat k = t)) target).
  { apply tensor_ext; [done|by apply wf_map|by rewrite Hsa|].
    intros ix Hix. rewrite Hsa in Hix. rewrite Hgeta, Hf by done.
    by rewrite get_map. }
  rewrite Heq. unfold sum_bool, Tensor.map. cbn [storage].
  apply length_filter_fmap_bool.
Qed.

Lemma count_correct_single_row_witness :
  let output := Tensor [1; 3] [1; 5; 5]%Q in
  let target := Tensor [4] [1; 0; 1; 2]%Z in
  ∃ k, first_max (storage output) k ∧
    count_correct output target
    = Some (inject_Z (Z.of_nat
        (length (filter (λ t, bool_decide (Z.of_nat k = t) = true) (storage target))))).
Proof.
  intros output target.
  apply (count_correct_single_row output target 3 4); [reflexivity..|lia|reflexivity|reflexivity].
Defined.

End single_row.

(** ** The plotted sample of weight_transfer_mnist *)

Section plot.
Import WeightTransfer WTEval WTPlot.

Lemma mapM_fmap_ext {A B} (f : A → option B) (g : A → B) (l : list A) :
  (∀ x, x ∈ l → f x = Some (g x)) → mapM f l = Some (g <$> l).
Proof.
  intros H. apply mapM_Some, Forall2_fmap_r, Forall_Forall2_diag, Forall_forall.
  exact H.
Qed.

Lemma sum_spikes {A} (P : A → Prop) `{!∀ x, Decision (P x)} (f : A → Q) (l : list A) :
  (∀ x, x ∈ l → (P x ∧ f x = 1%Q) ∨ (¬ P x ∧ f x = 0%Q)) →
  (foldr Qplus 0 (f <$> l) == inject_Z (Z.of_nat (length (filter P l))))%Q.
Proof.
  induction l as [|x l IH]; intros Hl; [reflexivity|].
  csimpl. rewrite filter_cons.
  rewrite IH by (intros y Hy; apply Hl; by apply list_elem_of_further).
  destruct (Hl x) as [[HP ->]|[HP ->]]; [apply list_elem_of_here| |].
  - rewrite decide_True by done. cbn [length].
    rewrite Nat2Z.inj_succ, <- Z.add_1_l, inject_Z_plus. reflexivity.
  - rewrite decide_False by done. by rewrite Qplus_0_l.
Qed.

(** X21: for a spiking dataset and a valid index, the image shown for a
    sample, [img.sum(0)[0]], has 28 by 28 entries; the entry of a pixel
    is the number of time steps at which the pixel gives an event, a
    number between 0 and [time_window]. *)
Theorem collapsed_counts_events (self : MNIST) (N : nat) (index : Z) (k : nat)
    (g : generator) :
  wf_dataset self N → wrap_index N index = Some k → is_spiking self = true →
  ∃ shown, collapsed self index g = Some shown ∧ shape shown = [28; 28] ∧
    ∀ r c, r < 28 → c < 28 →
      ∃ px v, get (data self) [k; r; c] = Some px ∧ get shown [r; c] = Some v ∧
        (v == inject_Z (Z.of_nat (events self g px r c)))%Q ∧
        events self g px r c ≤ time_window self.
Proof.
  intros (Hs & Hwf & Hlen) Hk Hspk.
  destruct (getitem_spiking self N [28; 28] index k g Hs Hwf Hlen Hk Hspk)
    as (raster & target & g' & Hitem & _ & Hsr & Hwfr & _ & Hget).
  set (T := time_window self) in *.
  unfold collapsed. rewrite Hitem. cbn [mbind option_bind].
  unfold sum_dim, Tensor.dim. rewrite Hsr.
  change (wrap_index (length [T; 1; 28; 28]) 0) with (Some 0).
  cbn [mbind option_bind delete list_delete].
  set (f := λ ix, row ← lane raster 0 ix; Some (foldr Qplus 0%Q row)).
  assert (Hlane : ∀ r c, r < 28 → c < 28 →
            ∃ px, get (data self) [k; r; c] = Some px ∧
              lane raster 0 [0; r; c]
              = Some ((λ t, spike (samples g (position g
                                     + offset [T; 1; 28; 28] [t; 0; r; c])) px)
                      <$> seq 0 T)).
  { intros r c Hr Hc.
    assert (in_range (shape (data self)) [k; r; c]) as Hin.
    { rewrite Hs. constructor 2; [by eapply wrap_index_lt|solve_in_range]. }
    destruct (get_is_Some _ _ Hwf Hin) as [px Hpx]. exists px. split; [done|].
    unfold lane. rewrite Hsr. cbn [lookup list_lookup mbind option_bind take drop app].
    apply mapM_fmap_ext. intros t [_ Ht]%elem_of_seq.
    destruct (Hget t [r; c]) as (px' & Hpx' & ->); [lia|solve_in_range|].
    congruence. }
  destruct (tabulate_is_Some [1; 28; 28] f) as [s Hsum].
  { intros ix Hix. inversion Hix as [|i ? ? ? Hi Hix1]; subst.
    inversion Hix1 as [|r ? ? ? Hr Hix2]; subst.
    inversion Hix2 as [|c ? ? ? Hc Hnil]; subst. inversion Hnil; subst.
    replace i with 0 by lia.
    destruct (Hlane r c Hr Hc) as (px & _ & Hl). unfold f. by rewrite Hl. }
  rewrite Hsum. cbn [mbind option_bind].
  apply tabulate_Some in Hsum as (Hss & Hwfs & Hgets).
  destruct (getitem_Some s 1 [28; 28] 0 0 Hss Hwfs eq_refl)
    as (shown & Hshown & Hssh & _ & Hgetsh).
  exists shown. split_and!; [done..|].
  intros r c Hr Hc. destruct (Hlane r c Hr Hc) as (px & Hpx & Hl).
  eexists px, _. split; [done|].
  rewrite Hgetsh, Hgets by solve_in_range. unfold f. rewrite Hl.
  cbn [mbind option_bind]. split; [done|]. split.
  - unfold events. fold T. apply sum_spikes. intros t _.
    unfold spike. case_bool_decide; [left|right]; by rewrite ?bool_decide_eq_true_2.
  - unfold events. fold T.
    etrans; [apply length_filter_le|]. by rewrite length_seq.
Qed.

Lemma collapsed_counts_events_witness :
  let self := mkMNIST (Tensor [1; 28; 28] (replicate 784 Byte.x80)) [7%Z] true 2 in
  let g := Generator (λ _, 1 # 2) 0 in
  ∃ shown, collapsed self 0 g = Some shown ∧ shape shown = [28; 28] ∧
    ∀ r c, r < 28 → c < 28 →
      ∃ px v, get (data self) [0; r; c] = Some px ∧ get shown [r; c] = Some v ∧
        (v == inject_Z (Z.of_nat (events self g px r c)))%Q ∧
        events self g px r c ≤ time_window self.
Proof.
  intros self g.
  assert (Hwf : wf_dataset self 1) by (repeat split; reflexivity).
  exact (collapsed_counts_events self 1 0 0 g Hwf eq_refl eq_refl).
Defined.

End plot.

(** ** The sizes of the tensors that pass through the networks *)

From Stdlib Require Import ZifyNat.

Section layers.
Import Layers.

Lemma window_1 h k :
  0 < k → window h k 1 = if decide (k ≤ h) then Some (h - k + 1) else None.
Proof.
  intros Hk. unfold window. repeat case_decide; try lia; [|done].
  by rewrite Nat.div_1_r.
Qed.

Lemma window_2 h : window h 2 2 = if decide (2 ≤ h) then Some (h / 2) else None.
Proof.
  unfold window. repeat case_decide; try lia; [|done]. f_equal.
  replace h with (h - 2 + 1 * 2) at 2 by lia.
  by rewrite Nat.div_add.
Qed.

Lemma features_1 c h w : c * (h * (w * 1)) = c → 0 < c → h = 1 ∧ w = 1.
Proof. intros H Hc. apply Nat.eq_mul_1. nia. Qed.

Ltac Zify.zify_post_hook ::= Z.to_euclidean_division_equations.

(** One layer of the network is applied to the sizes. *)
Ltac layer_step :=
  lazymatch goal with
  | |- forward_shape (?l :: ?ls) ?s = _ =>
      change (forward_shape (l :: ls) s) with (out_shape l s ≫= forward_shape ls);
      cbn [out_shape reverse rev_append numel foldr];
      rewrite ?window_1 by lia; rewrite ?window_2
  end.

Ltac accepted :=
  repeat (layer_step; rewrite ?decide_True by lia; cbn [mbind option_bind]).

Ltac refused :=
  repeat (layer_step; repeat (case_decide; [|by repeat case_decide]);
          cbn [mbind option_bind]).

(** X22: the network [ann] of weight_transfer_mnist accepts a batch of
    images of sizes [(B, C, H, W)] exactly when the images have one
    channel and between 28 and 35 rows and columns; it then returns
    sizes [(B, 10)]; in particular the number of features after
    [Flatten] is the 128 that the first linear layer wants. *)
Theorem ann_accepts (B C H W : nat) :
  forward_shape ann [B; C; H; W]
  = if decide (C = 1 ∧ 28 ≤ H ≤ 35 ∧ 28 ≤ W ≤ 35) then Some [B; 10] else None.
Proof.
  unfold ann.
  destruct (decide (C = 1 ∧ 28 ≤ H ≤ 35 ∧ 28 ≤ W ≤ 35)) as [Hyes|Hno].
  - accepted.
    match goal with
    | |- context [128 * (?h * (?w * 1))] =>
        replace h with 1 by lia; replace w with 1 by lia
    end.
    accepted. done.
  - refused.
    match goal with
    | Hf : _ * (_ * (_ * 1)) = _ |- _ => apply features_1 in Hf as [? ?]; [|lia]
    end.
    exfalso. lia.
Qed.

(** X23: [LeNet5] accepts a batch of square images of sizes
    [(B, C, H, H)] exactly when the images have one channel and a side
    between 28 and 31; it then returns sizes [(B, 10)]. So the
    [4 * 4 * 50] features of its first linear layer fit the
    [input_image_size] set by [prepare]. *)
Theorem LeNet5_accepts (B C H : nat) :
  forward_shape LeNet5 [B; C; H; H]
  = (if decide (C = 1 ∧ 28 ≤ H ≤ 31) then Some [B; 10] else None) ∧
  forward_shape LeNet5 (B :: LeNet.input_image_size) = Some [B; 10].
Proof.
  split; [|reflexivity]. unfold LeNet5.
  destruct (decide (C = 1 ∧ 28 ≤ H ≤ 31)) as [Hyes|Hno].
  - accepted.
    match goal with
    | |- context [50 * (?h * (?w * 1))] => replace h with 4 by lia
    end.
    accepted. done.
  - refused.
    match goal with
    | Hf : 50 * (?h * (?h * 1)) = _ |- _ => assert (h = 4) by nia
    end.
    exfalso. lia.
Qed.

(** X24: the network [ann] of the synops tutorial accepts a batch of
    images of sizes [(B, C, H, W)] exactly when the images have one
    channel and between 28 and 31 rows and columns; it then returns
    sizes [(B, 10)]. *)
Theorem synops_ann_accepts (B C H W : nat) :
  forward_shape synops_ann [B; C; H; W]
  = if decide (C = 1 ∧ 28 ≤ H ≤ 31 ∧ 28 ≤ W ≤ 31) then Some [B; 10] else None.
Proof.
  unfold synops_ann.
  destruct (decide (C = 1 ∧ 28 ≤ H ≤ 31 ∧ 28 ≤ W ≤ 31)) as [Hyes|Hno].
  - accepted. done.
  - refused.
    match goal with
    | Hf : _ * (_ * (_ * 1)) = _ |- _ => apply features_1 in Hf as [? ?]; [|lia]
    end.
    exfalso. lia.
Qed.

End layers.
